(** * PICALO: the entry point, the expression simulator and the
      cell-fraction post-processing

    A shallow embedding of three scripts of the repository:

    - [Picalo]: the [__main__] block of [picalo.py];
    - [SimulateExpression]: [main.__init__], [main.start],
      [main.corrcoef] and [main.merge_coef_and_p] of
      [simulate_expression.py];
    - [ModelCellFractions]: [main.start] of
      [dev/general/postprocess_scripts/model_cell_fraction_by_pics.py].

    Conventions.  Python integers are [Z] (counts that index arrays are
    [nat]); float64 values are idealised as exact rationals [Q], with
    numpy's inf and NaN where the program divides by what can be
    zero; pandas and numpy objects that live across statements and can
    be written in place are cells of an explicit store, addressed by
    location; the global [np.random] state, the logger and the written
    files are threaded through a state-and-exception monad.  Library
    routines whose code is not part of the repository (argument
    parsing, numpy's random generator, [sqrt], [betainc], PCA,
    [pearsonr], OLS) are taken as parameters. *)

From Stdlib Require Import ZArith QArith List Ascii String Lia.
From stdpp Require Import base option gmap list strings pretty.

Open Scope Z_scope.

(** ** picalo.py *)

Module Picalo.

(** What [CommandLineArguments.get_argument] can hand back: argparse
    yields [None], booleans (store_true flags), integers, floats and
    strings. *)
Inductive value : Type :=
| VNone
| VBool (b : bool)
| VInt (n : Z)
| VFloat (q : Q)
| VStr (s : string).

(** Python's numeric tower, as far as [<=] and [+] of the entry point
    need it: booleans count as 0 and 1. *)
Definition as_number (v : value) : option Q :=
  match v with
  | VBool b => Some (inject_Z (if b then 1 else 0))
  | VInt n => Some (inject_Z n)
  | VFloat q => Some q
  | VNone | VStr _ => None
  end.

(** [a <= b]: numbers are compared by value and two strings in
    lexicographic order; [None] stands for the [TypeError] Python
    raises for any other pair of operands. *)
Definition py_le (a b : value) : option bool :=
  match a, b with
  | VStr s, VStr t => Some (String.leb s t)
  | _, _ => x ← as_number a; y ← as_number b; Some (Qle_bool x y)
  end.

(** [a + 1]; a string and [None] cannot be added to an integer. *)
Definition py_succ (a : value) : option value :=
  match a with
  | VBool b => Some (VInt ((if b then 1 else 0) + 1))
  | VInt n => Some (VInt (n + 1))
  | VFloat q => Some (VFloat (q + 1))
  | VNone | VStr _ => None
  end.

(** The keyword arguments of the call [Main(...)], lines 83-105. *)
Record MainArgs : Type := {
  eqtl_path : value;
  genotype_path : value;
  genotype_na : value;
  expression_path : value;
  tech_covariate_path : value;
  tech_covariate_with_inter_path : value;
  covariate_path : value;
  sample_dataset_path : value;
  min_dataset_size : value;
  eqtl_alpha : value;
  ieqtl_alpha : value;
  call_rate : value;
  hw_pval : value;
  maf : value;
  mgs : value;
  n_components : value;
  min_iter : value;
  max_iter : value;
  tol : value;
  force_continue : value;
  outdir : value;
  verbose : value
}.

Inductive exception : Type := TypeError.

Section MainBlock.

(** [CLA.get_argument]: the parser class is defined in
    [src/cmd_line_arguments.py], outside the files at hand, so the
    lookup by option name is a parameter. *)
Variable get_argument : string -> value.

(** Lines 79-80. *)
Definition adjust_max_iter (MAX_ITER MIN_ITER : value)
  : exception + value :=
  match py_le MAX_ITER MIN_ITER with
  | None => inl TypeError
  | Some true =>
      match py_succ MIN_ITER with
      | Some v => inr v
      | None => inl TypeError
      end
  | Some false => inr MAX_ITER
  end.

(** Lines 56-105: the arguments are read in source order, the
    iteration bound is adjusted, and [Main] is constructed.  The
    result is the keyword record [Main] receives, or the exception
    that stops the script before the call. *)
Definition main_block : exception + MainArgs :=
  let EQTL_PATH := get_argument "eqtl" in
  let GENOTYPE_PATH := get_argument "genotype" in
  let GENOTYPE_NA := get_argument "genotype_na" in
  let EXPRESSION_PATH := get_argument "expression" in
  let TECH_COVARIATE_PATH := get_argument "tech_covariate" in
  let TECH_COVARIATE_WITH_INTERACTION_PATH :=
    get_argument "tech_covariate_with_inter" in
  let COVARIATE_PATH := get_argument "covariate" in
  let SAMPLE_DATASET_PATH := get_argument "sample_to_dataset" in
  let MIN_DATASET_SIZE := get_argument "min_dataset_size" in
  let EQTL_ALPHA := get_argument "eqtl_alpha" in
  let IEQTL_ALPHA := get_argument "ieqtl_alpha" in
  let CALL_RATE := get_argument "call_rate" in
  let HW_PVAL := get_argument "hardy_weinberg_pvalue" in
  let MAF := get_argument "minor_allele_frequency" in
  let MGS := get_argument "min_group_size" in
  let N_COMPONENTS := get_argument "n_components" in
  let MIN_ITER := get_argument "min_iter" in
  let MAX_ITER := get_argument "max_iter" in
  let TOL := get_argument "tol" in
  let FORCE_CONTINUE := get_argument "force_continue" in
  let OUTDIR := get_argument "outdir" in
  let VERBOSE := get_argument "verbose" in
  match adjust_max_iter MAX_ITER MIN_ITER with
  | inl e => inl e
  | inr MAX_ITER =>
      inr {| eqtl_path := EQTL_PATH;
             genotype_path := GENOTYPE_PATH;
             genotype_na := GENOTYPE_NA;
             expression_path := EXPRESSION_PATH;
             tech_covariate_path := TECH_COVARIATE_PATH;
             tech_covariate_with_inter_path :=
               TECH_COVARIATE_WITH_INTERACTION_PATH;
             covariate_path := COVARIATE_PATH;
             sample_dataset_path := SAMPLE_DATASET_PATH;
             min_dataset_size := MIN_DATASET_SIZE;
             eqtl_alpha := EQTL_ALPHA;
             ieqtl_alpha := IEQTL_ALPHA;
             call_rate := CALL_RATE;
             hw_pval := HW_PVAL;
             maf := MAF;
             mgs := MGS;
             n_components := N_COMPONENTS;
             min_iter := MIN_ITER;
             max_iter := MAX_ITER;
             tol := TOL;
             force_continue := FORCE_CONTINUE;
             outdir := OUTDIR;
             verbose := VERBOSE |}
  end.

End MainBlock.

(** The value bound to one keyword of the call [Main(...)], when the
    script reaches the call. *)
Definition keyword (field : MainArgs -> value) (r : exception + MainArgs)
  : option value :=
  match r with
  | inr args => Some (field args)
  | inl _ => None
  end.

(** A parsed command line, as an association list from option names to
    values; options that were not given read as [None]. *)
Fixpoint lookup_argument (cla : list (string * value)) (name : string)
  : value :=
  match cla with
  | [] => VNone
  | (k, v) :: rest =>
      if String.eqb k name then v else lookup_argument rest name
  end.

(** An invocation with [-min_iter 10 -max_iter 5]. *)
Definition cla_max5_min10 : list (string * value) :=
  [ ("genotype_na", VInt (-1));
    ("min_dataset_size", VInt 30);
    ("call_rate", VFloat (95 # 100));
    ("hardy_weinberg_pvalue", VFloat (1 # 10000));
    ("minor_allele_frequency", VFloat (1 # 100));
    ("min_group_size", VInt 2);
    ("n_components", VInt 10);
    ("min_iter", VInt 10);
    ("max_iter", VInt 5);
    ("tol", VFloat (1 # 1000));
    ("force_continue", VBool false);
    ("verbose", VBool false) ]%string.

(** An invocation with [-min_iter 5 -max_iter 100]. *)
Definition cla_max100_min5 : list (string * value) :=
  [ ("genotype_na", VInt (-1));
    ("min_dataset_size", VInt 30);
    ("call_rate", VFloat (95 # 100));
    ("hardy_weinberg_pvalue", VFloat (1 # 10000));
    ("minor_allele_frequency", VFloat (1 # 100));
    ("min_group_size", VInt 2);
    ("n_components", VInt 10);
    ("min_iter", VInt 5);
    ("max_iter", VInt 100);
    ("tol", VFloat (1 # 1000));
    ("force_continue", VBool true);
    ("verbose", VBool false) ]%string.

End Picalo.

(** ** dev/general/postprocess_scripts/model_cell_fraction_by_pics.py *)

Module ModelCellFractions.

(** A cell of a table read by [pd.read_csv]: a number, or NaN for an
    entry that is missing. *)
Definition cell : Type := option Q.

(** A pandas DataFrame: the column labels, and the rows, each with its
    index label.  A Series is a labelled column. *)
Record DataFrame : Type := {
  columns : list string;
  rows : list (string * list cell)
}.

Definition Series : Type := list (string * cell).

Definition index (df : DataFrame) : list string := (rows df).*1.

(** [df.T] *)
Definition T (df : DataFrame) : DataFrame :=
  {| columns := index df;
     rows := imap (λ j name,
                     (name, (λ r, default None (r.2 !! j)) <$> rows df))
                  (columns df) |}.

(** [df.loc[labels, :]] for a list of labels that all occur in the
    index: every row carrying the label, label after label. *)
Definition loc_rows (labels : list string) (df : DataFrame) : DataFrame :=
  {| columns := columns df;
     rows := labels ≫= (λ l, filter (λ r, r.1 = l) (rows df)) |}.

(** Position of a column label. *)
Definition get_loc (name : string) (labels : list string) : option nat :=
  fst <$> list_find (λ l, l = name) labels.

(** [df.loc[:, name]] *)
Definition loc_column (name : string) (df : DataFrame) : Series :=
  (λ r, (r.1, default None (j ← get_loc name (columns df); r.2 !! j)))
    <$> rows df.

(** [~s.isna()] *)
Definition notna (s : Series) : list (string * bool) :=
  (λ e, (e.1, bool_decide (is_Some e.2))) <$> s.

(** [mask.sum()] *)
Definition mask_sum (mask : list (string * bool)) : nat :=
  length (filter (λ e, e.2 = true) mask).

(** Selection of rows by a boolean Series.  pandas aligns the mask on
    the index of the selected object; the selection is by position when
    the two indexes are equal, and fails when the mask cannot be
    reindexed (the frames of [start] are reindexed by one list of
    labels, so no third case arises there). *)
Definition select {A : Type} (mask : list (string * bool))
    (labelled : list (string * A)) : option (list (string * A)) :=
  if bool_decide (mask.*1 = labelled.*1)
  then Some ((filter (λ e, e.1.2 = true) (zip mask labelled)).*2)
  else None.

(** [s.loc[mask]] and [df.loc[mask, :]] *)
Definition loc_mask (mask : list (string * bool)) (s : Series)
  : option Series := select mask s.

Definition loc_mask_rows (mask : list (string * bool)) (df : DataFrame)
  : option DataFrame :=
  rs ← select mask (rows df);
  Some {| columns := columns df; rows := rs |}.

(** What [OLS(...).fit()] reports, as far as [start] reads it. *)
Record OLSResults : Type := {
  rsquared : Q;
  params : list Q;
  bse : list Q
}.

(** Decimal digits with a comma between groups of three: the format
    [{:,}]. *)
Fixpoint group_thousands (fuel n : nat) : string :=
  match fuel with
  | O => pretty n
  | S fuel =>
      if (n <? 1000)%nat then pretty n
      else
        let r := (n mod 1000)%nat in
        group_thousands fuel (n / 1000)%nat +:+ "," +:+
        (if (r <? 10)%nat then "00" else if (r <? 100)%nat then "0" else "")
        +:+ pretty r
  end.

Definition format_N (n : nat) : string := group_thousands n n.

Section Start.

(** The values [scipy.stats.pearsonr] and statsmodels'
    [OLS(endog, exog).fit()] compute from the values of the objects
    passed to them.  statsmodels fits the design matrix as given: a
    constant column is only present if the caller adds one. *)
Variable pearsonr : list cell -> list cell -> Q * Q.
Variable OLS_fit : list cell -> list (list cell) -> OLSResults.

(** Lines 130-135. *)
Definition preprocess (cf_df pics_df : DataFrame)
  : DataFrame * DataFrame :=
  let pics_df := T pics_df in
  let samples :=
    filter (λ sample, sample ∈ index cf_df) (index pics_df) in
  let pics_df := loc_rows samples pics_df in
  let cf_df := loc_rows samples cf_df in
  (cf_df, pics_df).

(** Line 144, on the preprocessed frame. *)
Definition mask_of (cf_df : DataFrame) (cell_type : string)
  : list (string * bool) :=
  notna (loc_column cell_type cf_df).

(** The two arguments of [stats.pearsonr], line 151. *)
Definition pearsonr_x (cf_df : DataFrame) (cell_type : string)
  : option Series :=
  loc_mask (mask_of cf_df cell_type) (loc_column cell_type cf_df).

Definition pearsonr_y (cf_df pics_df : DataFrame)
    (cell_type pic : string) : option Series :=
  loc_mask (mask_of cf_df cell_type) (loc_column pic pics_df).

(** The two arguments of [OLS], line 156. *)
Definition ols_endog (cf_df : DataFrame) (cell_type : string)
  : option Series :=
  loc_mask (mask_of cf_df cell_type) (loc_column cell_type cf_df).

Definition ols_exog (cf_df pics_df : DataFrame) (cell_type : string)
  : option DataFrame :=
  loc_mask_rows (mask_of cf_df cell_type) pics_df.

(** [stats.pearsonr(x, y)], line 151: scipy raises a [ValueError]
    for arguments of different lengths and for fewer than two
    observations. *)
Definition stats_pearsonr (x y : list cell) : option (Q * Q) :=
  if decide (length x = length y ∧ (2 <= length x)%nat)
  then Some (pearsonr x y)
  else None.

(** One pass of the loop over the cell types, lines 142-161: the row
    of correlation coefficients, the row of p-values, the row of OLS
    results and the row label. *)
Definition model_cell_type (cf_df pics_df : DataFrame)
    (cell_type : string)
  : option (list Q * list Q * list Q * string) :=
  let n := mask_sum (mask_of cf_df cell_type) in
  correlations ←
    mapM (λ pic,
            x ← pearsonr_x cf_df cell_type;
            y ← pearsonr_y cf_df pics_df cell_type pic;
            stats_pearsonr x.*2 y.*2)
         (columns pics_df);
  endog ← ols_endog cf_df cell_type;
  exog ← ols_exog cf_df pics_df cell_type;
  let results := OLS_fit endog.*2 (rows exog).*2 in
  Some (correlations.*1, correlations.*2,
        [inject_Z (Z.of_nat n); rsquared results]
          ++ params results ++ bse results,
        cell_type +:+ " [N=" +:+ format_N n +:+ "]").

(** The tables of [start], lines 129-181, before they are written
    and plotted: correlations, p-values and OLS results (with the
    t-value columns appended), one row per cell type. *)
Record Tables : Type := {
  correlation_df : DataFrame;
  pvalue_df : DataFrame;
  ols_results_df : DataFrame
}.

Definition frame_of (index columns : list string) (m : list (list Q))
  : DataFrame :=
  {| columns := columns;
     rows := zip index ((λ r : list Q, (Some <$> r) : list cell) <$> m) |}.

Definition divide (a b : cell) : cell :=
  x ← a; y ← b; Some (x / y)%Q.

(** Lines 179-180: one [t-value] column per PIC, the beta over its
    standard error. *)
Definition add_tvalues (pics : list string) (df : DataFrame)
  : DataFrame :=
  foldl (λ df pic,
           let beta := loc_column (pic +:+ " beta") df in
           let se := loc_column (pic +:+ " std err") df in
           {| columns := columns df ++ [pic +:+ " t-value"];
              rows := zip_with (λ r bs, (r.1, r.2 ++ [divide bs.1.2 bs.2.2]))
                               (rows df) (zip beta se) |})
        df pics.

Definition start (cf_df pics_df : DataFrame) : option Tables :=
  let '(cf_df, pics_df) := preprocess cf_df pics_df in
  per_type ← mapM (model_cell_type cf_df pics_df) (columns cf_df);
  let index := per_type.*2 in
  let correlation_df :=
    frame_of index (columns pics_df) per_type.*1.*1.*1 in
  let pvalue_df :=
    frame_of index (columns pics_df) per_type.*1.*1.*2 in
  let ols_results_df :=
    frame_of index
      (["N"; "R2"]
         ++ ((λ col, col +:+ " beta") <$> columns pics_df)
         ++ ((λ col, col +:+ " std err") <$> columns pics_df))
      per_type.*1.*2 in
  Some {| correlation_df := correlation_df;
          pvalue_df := pvalue_df;
          ols_results_df := add_tvalues (columns pics_df) ols_results_df |}.

End Start.

(** [df.at[row, col]] by labels; NaN when a label is absent. *)
Definition row_data (df : DataFrame) (row : string) : list cell :=
  from_option (λ r, r.2.2) [] (list_find (λ r, r.1 = row) (rows df)).

Definition at_ (df : DataFrame) (row col : string) : cell :=
  default None (j ← get_loc col (columns df); row_data df row !! j).

(** A sample is usable for a cell type when it indexes the
    cell-fraction matrix and its fraction is not missing. *)
Definition usable (cf_df : DataFrame) (cell_type sample : string) : Prop :=
  sample ∈ index cf_df ∧ is_Some (at_ cf_df sample cell_type).

#[global] Instance usable_dec cf_df cell_type sample :
  Decision (usable cf_df cell_type sample).
Proof. unfold usable. apply _. Defined.

(** A small study: four PIC samples, three of them with cell
    fractions, one fraction missing, and a sample with cell fractions
    only. *)
Definition cf_example : DataFrame :=
  {| columns := ["Neut"; "Lymph"];
     rows := [ ("s1", [Some (6 # 10); Some (3 # 10)]);
               ("s3", [None; Some (2 # 10)]);
               ("s4", [Some (5 # 10); Some (4 # 10)]);
               ("s5", [Some (1 # 10); Some (1 # 10)]) ] |}.

Definition pics_example : DataFrame :=
  {| columns := ["s1"; "s2"; "s3"; "s4"];
     rows := [ ("PIC1", [Some 1; Some 2; Some 3; Some 4]);
               ("PIC2", [Some (-1); Some 0; Some 1; Some 2]) ] |}%Q.


(** Stand-ins for the two library routines that show what they were
    given: the first entry of each argument for [pearsonr], the
    number of observations and the width of the design matrix for
    [OLS]. *)
Definition pearsonr_example (x y : list cell) : Q * Q :=
  (default 0%Q (mjoin (head x)), default 0%Q (mjoin (head y))).

Definition OLS_fit_example (endog : list cell) (exog : list (list cell))
  : OLSResults :=
  {| rsquared := inject_Z (Z.of_nat (length endog));
     params := (λ _, 1%Q) <$> default [] (head exog);
     bse := (λ _, 2%Q) <$> default [] (head exog) |}.

End ModelCellFractions.

(** ** simulate_expression.py *)

Module SimulateExpression.

(** One-, two- and three-dimensional float arrays, row-major. *)
Abbreviation vector := (list Q).
Abbreviation matrix := (list (list Q)).
Abbreviation tensor := (list (list (list Q))).

(** *** Tables *)

(** A row of the eQTL table, with the four columns [start] reads. *)
Record eqtl_row : Type := {
  SNPName : string;
  ProbeName : string;
  AlleleAssessed : string;
  Meta_Beta_SE : string
}.

(** A row of the alleles table: the index label and the [Alleles]
    column; [AlleleAssessed_] is the column line 338 adds. *)
Record alleles_row : Type := {
  alleles_label : string;
  Alleles : string;
  AlleleAssessed_ : option string
}.

(** A float64 where the program divides by what can be zero: floats
    are idealised as rationals, and a quotient can also be an infinity
    or NaN (numpy warns and goes on). *)
Inductive float64 : Type :=
| Finite (x : Q)
| Infinity (negative : bool)
| NaN.

(** A DataFrame with cells of one type; the numeric frames of the
    program hold numbers. *)
Record DataFrame_of (A : Type) : Type := {
  index : list string;
  columns : list string;
  values : list (list A)
}.
Arguments index {A} _.
Arguments columns {A} _.
Arguments values {A} _.

Abbreviation DataFrame := (DataFrame_of Q).

(** A row of the table [merge_coef_and_p] returns. *)
Record corr_row : Type := {
  hidden_covariate : string;
  PC : string;
  coef : float64;
  pvalue : float64
}.

(** *** The store *)

(** numpy arrays and pandas frames are objects with identity: two
    names can refer to one of them, and an assignment to a slice or a
    column changes it for every name.  They live in a store. *)
Inductive object : Type :=
| BoolArray (a : list bool)
| Array1 (a : vector)
| Array2 (a : matrix)
| Array3 (a : tensor)
| Frame (df : DataFrame)
| FloatFrame (df : DataFrame_of float64)
| IndexedFrame (df : DataFrame_of float64)
| AllelesFrame (rows : list alleles_row)
| CorrFrame (rows : list corr_row).

Definition loc : Type := nat.

(** *** Effects *)

(** A formatted line: the template and the numbers interpolated. *)
Record message : Type := { template : string; args : list Z }.

Inductive event : Type :=
| Info (msg : message)
| Error (msg : message)
| Stdout (what : string)
| Saved (simulation_id : nat) (file : string) (content : object).

Inductive exception : Type :=
| TypeError | ValueError | KeyError | IndexError | NameError
| AttributeError.

Inductive outcome (A : Type) : Type :=
| Return (a : A)
| Raised (e : exception)
| Exited (status : Z).
Arguments Return {A} a.
Arguments Raised {A} e.
Arguments Exited {A} status.

(** The global generator behind [np.random]: one draw from N(0,1), and
    [choice(n, size, replace=False)], which numpy documents to return
    [size] distinct elements of [range(n)]. *)
Class NumpyRandom : Type := {
  RandomState : Type;
  standard_normal : RandomState -> Q * RandomState;
  choice_without_replacement :
    nat -> nat -> RandomState -> list nat * RandomState;
  choice_distinct : ∀ n size s,
    (size <= n)%nat ->
    NoDup (choice_without_replacement n size s).1 ∧
    length (choice_without_replacement n size s).1 = size ∧
    Forall (λ i, (i < n)%nat) (choice_without_replacement n size s).1
}.

(** Library numerics: [np.sqrt], [scipy.special.betainc],
    [PCA(n_components).fit(X).components_] (a [ValueError] when
    sklearn rejects the shape), the float parser behind
    [astype(float)], the order [sort_values] picks, and the contents
    [np.empty] finds in fresh memory. *)
Class Numerics : Type := {
  np_sqrt : Q -> Q;
  betainc : Q -> Q -> float64 -> float64;
  pca_components : nat -> matrix -> option matrix;
  parse_float : string -> option Q;
  sort_values_by_abs_coef : list corr_row -> list corr_row;
  uninitialised : nat -> nat -> nat -> Q;
  (* [components_] has [n_components] rows *)
  pca_rows : ∀ k m c, pca_components k m = Some c -> length c = k
}.

Section Program.
Context `{NumpyRandom} `{Numerics}.

Record world : Type := {
  np_random : RandomState;
  heap : gmap loc object;
  next_loc : loc;
  log : list event
}.

Definition M (A : Type) : Type := world -> outcome A * world.

Definition ret {A} (a : A) : M A := λ w, (Return a, w).

Definition bind {A B} (m : M A) (k : A -> M B) : M B :=
  λ w, match m w with
       | (Return a, w') => k a w'
       | (Raised e, w') => (Raised e, w')
       | (Exited status, w') => (Exited status, w')
       end.

Definition raise {A} (e : exception) : M A := λ w, (Raised e, w).

(** [exit()]: the builtin raises [SystemExit(code)], and the
    interpreter ends with status 0 when [code] is [None]. *)
Definition exit_ {A} (code : option Z) : M A :=
  λ w, (Exited (default 0 code), w).

#[global] Instance M_ret : MRet M := @ret.
#[global] Instance M_bind : MBind M := λ A B k m, bind m k.

(** The four ways a statement changes the world. *)
Definition logged (e : event) (w : world) : world :=
  {| np_random := np_random w; heap := heap w;
     next_loc := next_loc w; log := log w ++ [e] |}.

Definition allocated (o : object) (w : world) : world :=
  {| np_random := np_random w; heap := <[next_loc w := o]> (heap w);
     next_loc := S (next_loc w); log := log w |}.

Definition stored (l : loc) (o : object) (w : world) : world :=
  {| np_random := np_random w; heap := <[l := o]> (heap w);
     next_loc := next_loc w; log := log w |}.

Definition reseeded (s : RandomState) (w : world) : world :=
  {| np_random := s; heap := heap w;
     next_loc := next_loc w; log := log w |}.

Definition emit (e : event) : M unit :=
  λ w, (Return (), logged e w).

Definition log_info (template : string) (args : list Z) : M unit :=
  emit (Info {| template := template; args := args |}).

Definition log_error (template : string) (args : list Z) : M unit :=
  emit (Error {| template := template; args := args |}).

Definition print (what : string) : M unit := emit (Stdout what).

(** Object creation, reading through a reference, and writing through
    a reference. *)
Definition alloc (o : object) : M loc :=
  λ w, (Return (next_loc w), allocated o w).

Definition load (l : loc) : M object :=
  λ w, match heap w !! l with
       | Some o => (Return o, w)
       | None => (Raised NameError, w)
       end.

Definition store (l : loc) (o : object) : M unit :=
  λ w, (Return (), stored l o w).

Definition load_bools (l : loc) : M (list bool) :=
  o ← load l; match o with BoolArray a => ret a | _ => raise TypeError end.
Definition load_array1 (l : loc) : M vector :=
  o ← load l; match o with Array1 a => ret a | _ => raise TypeError end.
Definition load_array2 (l : loc) : M matrix :=
  o ← load l; match o with Array2 a => ret a | _ => raise TypeError end.
Definition load_array3 (l : loc) : M tensor :=
  o ← load l; match o with Array3 a => ret a | _ => raise TypeError end.
Definition load_frame (l : loc) : M DataFrame :=
  o ← load l; match o with Frame df => ret df | _ => raise TypeError end.
Definition load_float_frame (l : loc) : M (DataFrame_of float64) :=
  o ← load l;
  match o with FloatFrame df => ret df | _ => raise TypeError end.
Definition load_alleles (l : loc) : M (list alleles_row) :=
  o ← load l;
  match o with AllelesFrame rows => ret rows | _ => raise TypeError end.

(** An optional library result: [None] is the exception [e]. *)
Definition or_raise {A} (e : exception) (o : option A) : M A :=
  match o with Some a => ret a | None => raise e end.

(** *** np.random *)

Definition np_random_normal : M Q :=
  λ w, (Return (standard_normal (np_random w)).1,
        reseeded (standard_normal (np_random w)).2 w).

Fixpoint replicateM {A} (n : nat) (m : M A) : M (list A) :=
  match n with
  | O => ret []
  | S n => x ← m; xs ← replicateM n m; ret (x :: xs)
  end.

(** [np.random.normal(0, 1, size=(n,))] and [size=(rows, cols)]: the
    draws fill the array in row-major order. *)
Definition normal_vector (n : nat) : M vector :=
  replicateM n np_random_normal.

Definition normal_matrix (rows cols : nat) : M matrix :=
  replicateM rows (normal_vector cols).

(** What [n] draws in a row return, and the state they leave. *)
Fixpoint draws {S A} (draw : S -> A * S) (n : nat) (s : S) : list A * S :=
  match n with
  | O => ([], s)
  | S n =>
      let first := draw s in
      let rest := draws draw n first.2 in
      (first.1 :: rest.1, rest.2)
  end.

(** [np.random.choice(n, size=size, replace=False)]: a [ValueError]
    for a negative size or one above the population. *)
Definition np_random_choice (n : nat) (size : Z) : M (list nat) :=
  if (size <? 0) || (Z.of_nat n <? size) then raise ValueError
  else λ w,
      let drawn :=
        choice_without_replacement n (Z.to_nat size) (np_random w) in
      (Return drawn.1, reseeded drawn.2 w).

End Program.

(** *** Array expressions

    Expressions build new arrays.  An assignment whose right-hand side
    has another shape than the target is [None], numpy's [ValueError]
    (the broadcasting of axes of length one is left out). *)

Definition zip_exact {A B C} (f : A -> B -> option C)
    (l : list A) (k : list B) : option (list C) :=
  if decide (length l = length k)
  then mapM (λ p, f p.1 p.2) (zip l k)
  else None.

(** [a[mask]] for a boolean mask. *)
Definition mask_select {A} (mask : list bool) (l : list A) : list A :=
  (filter (λ p, p.1 = true) (zip mask l)).*2.

(** [mask.sum()]: the number of entries that are set. *)
Definition n_selected (mask : list bool) : nat :=
  length (filter (λ b, b = true) mask).

(** [mask[idx] = False] *)
Definition clear_mask (idx : list nat) (mask : list bool) : list bool :=
  foldr (λ i m, <[i:=false]> m) mask idx.

(** [m[i, j]], and the arrays of [n] rows of [m] entries that all
    satisfy [P]: a matrix of shape [(n, m)] for [P] true, an array of
    shape [(n, m, k)] for the [P] of length [k]. *)
Definition entry {A} (m : list (list A)) (i j : nat) : option A :=
  row ← m !! i; row !! j.

Definition shaped {A} (n m : nat) (P : A -> Prop) (x : list (list A))
  : Prop :=
  length x = n ∧ Forall (λ row, length row = m ∧ Forall P row) x.

(** [np.empty(shape=(n, m, k))] and [np.empty(shape=(n, k))] *)
Definition np_empty3 `{Numerics} (n m k : nat) : tensor :=
  (λ i, (λ j, (λ t, uninitialised i j t) <$> seq 0 k) <$> seq 0 m)
    <$> seq 0 n.

Definition np_empty2 `{Numerics} (n k : nat) : matrix :=
  (λ i, (λ t, uninitialised i 0 t) <$> seq 0 k) <$> seq 0 n.

(** [t[:, :, k] = c] and [t[:, :, k] = x] *)
Definition fill_term (k : nat) (c : Q) (t : tensor) : tensor :=
  (λ row : matrix, (λ terms : vector, <[k:=c]> terms) <$> row) <$> t.

Definition set_term (k : nat) (x : matrix) (t : tensor) : option tensor :=
  zip_exact (zip_exact (λ (terms : vector) v, Some (<[k:=v]> terms))) t x.

(** [t[:, :, a:b]] and [t[:, :, a:b] = x] *)
Definition get_terms (a b : nat) (t : tensor) : tensor :=
  (λ row : matrix, (λ terms : vector, take (b - a) (drop a terms)) <$> row)
    <$> t.

Definition set_terms (a b : nat) (x : tensor) (t : tensor)
  : option tensor :=
  zip_exact
    (zip_exact (λ (terms vs : vector),
                  if decide (length (take (b - a) (drop a terms))
                             = length vs)
                  then Some (take a terms ++ vs ++ drop b terms)
                  else None))
    t x.

(** [t[:, :, [k]]], and the product of a block of terms with it. *)
Definition get_term (k : nat) (t : tensor) : matrix :=
  (λ row : matrix, (λ terms : vector, default 0%Q (terms !! k)) <$> row)
    <$> t.

Definition scale_terms (t : tensor) (g : matrix) : tensor :=
  zip_with (zip_with (λ (terms : vector) v, (λ c, c * v)%Q <$> terms)) t g.

(** [np.repeat(m[np.newaxis, :, :], n, axis=0)] *)
Definition np_repeat (n : nat) (m : matrix) : tensor := replicate n m.

(** [b[:, k] = v] and [b[:, k] = c] *)
Definition set_column (k : nat) (v : vector) (b : matrix) : option matrix :=
  zip_exact (λ (row : vector) x, Some (<[k:=x]> row)) b v.

Definition fill_column (k : nat) (c : Q) (b : matrix) : matrix :=
  (λ row : vector, <[k:=c]> row) <$> b.

(** [m[:, a:b]] and [m[:, j]] *)
Definition get_columns (a b : nat) (m : matrix) : matrix :=
  (λ row : vector, take (b - a) (drop a row)) <$> m.

Definition get_column (j : nat) (m : matrix) : vector :=
  (λ row : vector, default 0%Q (row !! j)) <$> m.

Definition np_sum (v : vector) : Q := foldr Qplus 0%Q v.

Definition dot (a b : vector) : Q := np_sum (zip_with Qmult a b).

(** [np.einsum('ijk,ik->ij', t, b)] *)
Definition einsum (t : tensor) (b : matrix) : option matrix :=
  zip_exact
    (λ (row : matrix) (beta : vector),
       mapM (λ terms : vector,
               if decide (length terms = length beta)
               then Some (dot terms beta) else None) row)
    t b.

(** Number of columns, [m.shape[1]]. *)
Definition n_columns (m : matrix) : nat :=
  match m with [] => 0%nat | row :: _ => length row end.

Definition np_transpose (m : matrix) : matrix :=
  (λ j, get_column j m) <$> seq 0 (n_columns m).

(** [np.mean(m, axis=0)], [m - v] along the rows, [np.std(m, axis=0)] *)
Definition np_mean (v : vector) : Q :=
  (np_sum v / inject_Z (Z.of_nat (length v)))%Q.

Definition column_means (m : matrix) : vector :=
  (λ j, np_mean (get_column j m)) <$> seq 0 (n_columns m).

Definition sub_rows (m : matrix) (v : vector) : matrix :=
  (λ row : vector, zip_with Qminus row v) <$> m.

Definition div_rows (m : matrix) (v : vector) : matrix :=
  (λ row : vector, zip_with Qdiv row v) <$> m.

Definition column_stds `{Numerics} (m : matrix) : vector :=
  (λ j, let c := get_column j m in
        np_sqrt (np_mean ((λ x, (x - np_mean c) * (x - np_mean c))%Q <$> c)))
    <$> seq 0 (n_columns m).

(** float64 arithmetic where an operand can be an infinity or NaN, as
    IEEE 754 and numpy have it.  The divisors of [corrcoef] that are
    zero are a square root, [1 - 1] and a sum, all of them +0: a
    quotient by zero has the sign of its numerator. *)
Definition is_negative (x : Q) : bool := negb (Qle_bool 0 x).

Definition fmul (a b : float64) : float64 :=
  match a, b with
  | NaN, _ | _, NaN => NaN
  | Finite x, Finite y => Finite (x * y)
  | Infinity s, Finite y | Finite y, Infinity s =>
      if Qeq_bool y 0 then NaN else Infinity (xorb s (is_negative y))
  | Infinity s, Infinity t => Infinity (xorb s t)
  end.

Definition fadd (a b : float64) : float64 :=
  match a, b with
  | NaN, _ | _, NaN => NaN
  | Finite x, Finite y => Finite (x + y)
  | Infinity s, Finite _ | Finite _, Infinity s => Infinity s
  | Infinity s, Infinity t => if Bool.eqb s t then Infinity s else NaN
  end.

Definition fsub (a b : float64) : float64 :=
  fadd a match b with
         | Finite y => Finite (- y)
         | Infinity s => Infinity (negb s)
         | NaN => NaN
         end.

Definition fdiv (a b : float64) : float64 :=
  match a, b with
  | NaN, _ | _, NaN => NaN
  | Finite x, Finite y =>
      if Qeq_bool y 0
      then (if Qeq_bool x 0 then NaN else Infinity (is_negative x))
      else Finite (x / y)
  | Finite _, Infinity _ => Finite 0
  | Infinity s, Finite y => Infinity (xorb s (is_negative y))
  | Infinity _, Infinity _ => NaN
  end.

(** [df.iloc[:, mask]], an [IndexError] when the mask has another
    length than the column axis; [df.copy()] is the identity on
    values. *)
Definition iloc_columns (mask : list bool) (df : DataFrame)
  : option DataFrame :=
  if decide (length mask = length (columns df))
  then Some {| index := index df;
               columns := mask_select mask (columns df);
               values := mask_select mask <$> values df |}
  else None.

(** [pd.DataFrame(m, index=..., columns=...)] *)
Definition pd_DataFrame {A} (m : list (list A))
    (index columns : list string) : option (DataFrame_of A) :=
  if decide (length m = length index
             ∧ Forall (λ row : list A, length row = length columns) m)
  then Some {| index := index; columns := columns; values := m |}
  else None.

(** [s.str.split(sep, n=1, expand=True)[0]]: the text before the first
    separator, all of it when there is none. *)
Fixpoint before (sep : ascii) (s : string) : string :=
  match s with
  | EmptyString => EmptyString
  | String c rest =>
      if Ascii.eqb c sep then EmptyString else String c (before sep rest)
  end.


(** Python's [l[a:b]] for [0 <= a <= b]. *)
Definition slice {A} (a b : nat) (l : list A) : list A :=
  take (b - a) (drop a l).

(** [v.reshape(a, b)] *)
Definition reshape {A} (v : list A) (a b : nat)
  : option (list (list A)) :=
  if decide (length v = (a * b)%nat)
  then Some ((λ i, take b (drop (i * b) v)) <$> seq 0 a)
  else None.

(** [df.melt(id_vars=["index"])] after [df["index"] = df.index]: one
    row per cell, column after column. *)
Definition melt (df : DataFrame_of float64)
  : list (string * string * float64) :=
  concat (imap (λ j col,
                  zip_with (λ idx (row : list float64),
                              (idx, col, default NaN (row !! j)))
                           (index df) (values df))
               (columns df)).

(** [corr_dfm.merge(pvalue_dfm, on=["hidden_covariate", "PC"])]: the
    inner join, in the order of the left table. *)
Definition merge (corr_dfm pvalue_dfm : list (string * string * float64))
  : list corr_row :=
  corr_dfm ≫= (λ c,
    (λ p : string * string * float64,
       {| hidden_covariate := c.1.1; PC := c.1.2;
          coef := c.2; pvalue := p.2 |})
      <$> filter (λ p, p.1 = c.1) pvalue_dfm).

(** [df.loc[labels, :].to_numpy().flatten()]; [None] is the
    [KeyError] for a label that is not in the index. *)
Definition loc_flatten (labels : list string) (df : DataFrame)
  : option vector :=
  (λ rows : matrix, concat rows) <$>
    mapM (λ l,
            match (filter (λ r, r.1 = l) (zip (index df) (values df))).*2
            with
            | [] => None
            | rows => Some (concat rows)
            end)
         labels.

(** [pd.read_csv(..., nrows=nrows)]: the first [nrows] rows, all of
    them for [None]. *)
Definition read_rows {A} (nrows : option nat) (rows : list A) : list A :=
  match nrows with
  | Some n => take n rows
  | None => rows
  end.

Definition read_frame (nrows : option nat) (table : DataFrame)
  : DataFrame :=
  {| index := read_rows nrows (index table);
     columns := columns table;
     values := read_rows nrows (values table) |}.

(** The attributes [__init__] sets from the command line, with the
    table behind each path. *)
Record main : Type := {
  eqtl : option (list eqtl_row);
  avg_expression : option DataFrame;
  use_real_intercept_beta : bool;
  genotype : DataFrame;
  alleles : option (list alleles_row);
  use_real_genotype_beta : bool;
  n_individuals : option Z;
  resample_individuals : bool;
  n_experiments : Z;
  n_eqtls : option nat;
  n_known_covariates : nat;
  n_hidden_covariates : nat;
  n_starting_vectors : nat;
  exclude_covariate_interactions : bool;
  resample_covariates : bool
}.



(** Lines 155-159. *)
Definition n_covariates (self : main) : nat :=
  (n_known_covariates self + n_hidden_covariates self)%nat.

Definition n_interaction_covariates (self : main) : nat :=
  if exclude_covariate_interactions self then 0%nat else n_covariates self.

Definition n_terms (self : main) : nat :=
  (2 + n_covariates self + n_interaction_covariates self + 1)%nat.

(** Lines 364-370. *)
Definition model_columns (self : main) : list string :=
  ["intercept"; "genotype"]
    ++ ((λ i, "known_covariate" +:+ pretty i)
          <$> seq 0 (n_known_covariates self))
    ++ ((λ i, "hidden_covariate" +:+ pretty i)
          <$> seq 0 (n_hidden_covariates self))
    ++ (if exclude_covariate_interactions self then []
        else ((λ i, "known_covariate_interaction" +:+ pretty i)
                <$> seq 0 (n_known_covariates self))
             ++ ((λ i, "hidden_covariate_interaction" +:+ pretty i)
                   <$> seq 0 (n_hidden_covariates self)))
    ++ ["noise"].

(** The names that stay bound from one experiment to the next. *)
Record locals : Type := {
  individuals_mask : loc;
  cov_m : option loc
}.

(** The names lines 388-437 bind in one experiment. *)
Record simulation : Type := {
  model_m : loc;
  sample_names : list string;
  cov_m_used : option loc;
  noise_m : matrix;
  beta_m : loc;
  expr_m : matrix
}.

Section Main.
Context `{NumpyRandom} `{Numerics}.

Definition when (b : bool) (m : M unit) : M unit :=
  if b then m else ret ().

Fixpoint for_ {A} (l : list A) (body : A -> M unit) : M unit :=
  match l with
  | [] => ret ()
  | a :: rest => body a;; for_ rest body
  end.

(** [cov_m[...]]: subscripting [None] is a [TypeError]. *)
Definition subscript (cov_m : option loc) : M matrix :=
  match cov_m with
  | Some l => load_array2 l
  | None => raise TypeError
  end.

(** [load_file], lines 509-516, on the table behind the path; no path
    is a [ValueError] of [pd.read_csv].  Of the shape that is logged,
    the number of rows is kept. *)
Definition load_file {A} (inpath : option (list A)) (nrows : option nat)
  : M (list A) :=
  match inpath with
  | None => raise ValueError
  | Some rows =>
      let df := read_rows nrows rows in
      log_info "\tLoaded dataframe: {} with shape: {}"
               [Z.of_nat (length df)];;
      ret df
  end.

Definition load_file_frame (inpath : option DataFrame)
    (nrows : option nat) : M DataFrame :=
  match inpath with
  | None => raise ValueError
  | Some table =>
      let df := read_frame nrows table in
      log_info "\tLoaded dataframe: {} with shape: {}"
               [Z.of_nat (length (index df))];;
      ret df
  end.

(** [save_file], lines 559-572. *)
Definition save_file (simulation_id : nat) (file : string)
    (df : object) : M unit :=
  emit (Saved simulation_id file df).

(** [corrcoef], lines 518-542.  The quotients are numpy's: a column
    without variation has NaN correlations, and a correlation of 1 or
    -1 an infinite [ts]. *)
Definition corrcoef (m1 m2 : matrix)
  : M (list (list float64) * list (list float64)) :=
  let m1_dev := sub_rows m1 (column_means m1) in
  let m2_dev := sub_rows m2 (column_means m2) in
  let m1_rss :=
    (λ i, np_sum ((λ x, x * x)%Q <$> get_column i m1_dev))
      <$> seq 0 (n_columns m1_dev) in
  let m2_rss :=
    (λ j, np_sum ((λ x, x * x)%Q <$> get_column j m2_dev))
      <$> seq 0 (n_columns m2_dev) in
  r ← mapM (λ i,
        mapM (λ j,
          products ←
            or_raise ValueError
              (zip_exact (λ a b, Some (a * b)%Q)
                         (get_column i m1_dev) (get_column j m2_dev));
          ret (fdiv (Finite (np_sum products))
                    (Finite (np_sqrt (default 0 (m1_rss !! i)
                                      * default 0 (m2_rss !! j))%Q))))
          (seq 0 (n_columns m2_dev)))
        (seq 0 (n_columns m1_dev));
  let rf := concat r in
  let df := inject_Z (Z.of_nat (length m1) - 2) in
  let ts :=
    (λ x, fmul (fmul x x)
               (fdiv (Finite df) (fsub (Finite 1) (fmul x x)))) <$> rf in
  let pf :=
    (λ t, betainc ((1 # 2) * df)%Q (1 # 2)%Q
                  (fdiv (Finite df) (fadd (Finite df) t))) <$> ts in
  p ← or_raise ValueError (reshape pf (n_columns m1) (n_columns m2));
  ret (r, p).

(** [merge_coef_and_p], lines 544-557.  Both arguments get an
    ["index"] column in place. *)
Definition merge_coef_and_p (coef_df pvalue_df : loc) : M loc :=
  coef ← load_float_frame coef_df;
  store coef_df (IndexedFrame coef);;
  let corr_dfm := melt coef in
  pvalue ← load_float_frame pvalue_df;
  store pvalue_df (IndexedFrame pvalue);;
  let pvalue_dfm := melt pvalue in
  corr_out_df ← alloc (CorrFrame (merge corr_dfm pvalue_dfm));
  store corr_out_df
        (CorrFrame (sort_values_by_abs_coef (merge corr_dfm pvalue_dfm)));;
  ret corr_out_df.

(** [print_arguments], lines 574-593; the values interpolated are
    left out. *)
Definition print_arguments : M unit :=
  for_ [ "Arguments:"; "  > eQTL data: {}";
         "  > Average expression data: {}";
         "  > Use real intercept beta: {}"; "  > Genotype data: {}";
         "  > Genotype NA value: {}"; "  > Alleles data: {}";
         "  > Use real genotype beta: {}"; "  > Individuals: {}";
         "  > Resample individuals: {}"; "  > N experiments: {}";
         "  > N eQTLs: {}"; "  > N known covariates: {}";
         "  > N hidden covariates: {}"; "  > N starting vectors: {}";
         "  > Exclude covariate interactions: {}";
         "  > Resample covariates: {}"; "  > Output directory: {}"; "" ]
       (λ line, log_info line []).


(** Lines 331-344: the genotype betas, as a reference to the array. *)
Definition generate_genotype_beta (self : main)
    (eqtl_df : list eqtl_row) (self_n_eqtls : nat) : M loc :=
  geno_beta_a ← (a ← normal_vector self_n_eqtls; alloc (Array1 a));
  if use_real_genotype_beta self then
    log_info "Using real genotype beta's" [];;
    alleles_df ← (rows ← load_file (alleles self) (Some self_n_eqtls);
                  alloc (AllelesFrame rows));
    (* line 338 *)
    rows ← load_alleles alleles_df;
    store alleles_df
          (AllelesFrame
             ((λ r, {| alleles_label := alleles_label r;
                       Alleles := Alleles r;
                       AlleleAssessed_ := Some (before "/" (Alleles r)) |})
                <$> rows));;
    (* lines 339-341 *)
    rows ← load_alleles alleles_df;
    alt_aa ← or_raise KeyError (mapM AlleleAssessed_ rows);
    eqtl_beta_flip ←
      or_raise ValueError
        (zip_exact (λ ref_aa alt_aa, Some (ref_aa, alt_aa))
                   (AlleleAssessed <$> eqtl_df) alt_aa);
    let flip :=
      (λ aa : string * string,
         if bool_decide (aa.1 = aa.2) then 1%Q else (-1)%Q)
        <$> eqtl_beta_flip in
    (* line 342 *)
    geno_beta_a ←
      (a ← or_raise ValueError
             (mapM (λ r, parse_float (before " " (Meta_Beta_SE r)))
                   eqtl_df);
       alloc (Array1 a));
    (* line 343: in place *)
    a ← load_array1 geno_beta_a;
    a ← or_raise ValueError (zip_exact (λ x f, Some (x * f)%Q) a flip);
    store geno_beta_a (Array1 a);;
    ret geno_beta_a
  else ret geno_beta_a.

(** Lines 353-355 and 383-386: a fresh mask with
    [n_individuals - self.n_individuals] entries cleared. *)
Definition draw_individuals (individuals_mask : loc)
    (n_individuals : nat) (self_n_individuals : Z) : M unit :=
  idx ← np_random_choice n_individuals
          (Z.of_nat n_individuals - self_n_individuals);
  mask ← load_bools individuals_mask;
  store individuals_mask (BoolArray (clear_mask idx mask)).

(** Lines 347-355.  [self.n_individuals] is not [None] any more here:
    line 306 has replaced [None] by the number of columns. *)
Definition select_individuals (n_individuals : nat)
    (self_n_individuals : Z) : M loc :=
  log_info "Selecting individuals" [];;
  individuals_mask ← alloc (BoolArray (replicate n_individuals true));
  when (bool_decide (self_n_individuals ≠ Z.of_nat n_individuals))
    (when (Z.of_nat n_individuals <? self_n_individuals)
       (log_error "\tError, more samples requested than available." [];;
        exit_ None);;
     draw_individuals individuals_mask n_individuals self_n_individuals);;
  ret individuals_mask.

(** Lines 399-411: the covariates and their interactions with the
    genotype, in the model matrix.  The covariate matrix in use is
    returned: it is rebound when the covariates are resampled. *)
Definition fill_covariates (self : main)
    (self_n_eqtls self_n_individuals : nat) (model_m : loc)
    (cov_m : option loc) : M (option loc) :=
  if (0 <? n_covariates self)%nat then
    cov_m ←
      (if resample_covariates self then
         log_info "\tResampling covariates" [];;
         c ← normal_matrix self_n_individuals (n_covariates self);
         l ← alloc (Array2 c);
         ret (Some l)
       else ret cov_m);
    (* line 407 *)
    c ← subscript cov_m;
    t ← load_array3 model_m;
    t ← or_raise ValueError
          (set_terms 2 (n_covariates self + 2)
                     (np_repeat self_n_eqtls c) t);
    store model_m (Array3 t);;
    (* line 411 *)
    when (negb (exclude_covariate_interactions self))
      (t ← load_array3 model_m;
       t ← or_raise ValueError
             (set_terms (n_covariates self + 2) (n_terms self - 1)
                (scale_terms (get_terms 2 (n_covariates self + 2) t)
                             (get_term 1 t))
                t);
       store model_m (Array3 t));;
    ret cov_m
  else ret cov_m.

(** Lines 388-416: the model matrix, and the names of the selected
    samples. *)
Definition construct_model_matrix (self : main) (geno_df : loc)
    (self_n_eqtls self_n_individuals : nat)
    (individuals_mask : loc) (cov_m : option loc)
  : M (loc * list string * option loc * matrix) :=
  log_info "\tConstructing model matrix" [];;
  model_m ← alloc (Array3 (np_empty3 self_n_eqtls self_n_individuals
                                     (n_terms self)));
  (* line 393 *)
  t ← load_array3 model_m;
  store model_m (Array3 (fill_term 0 1 t));;
  (* line 396 *)
  mask ← load_bools individuals_mask;
  geno_slice ← (df ← load_frame geno_df;
                df ← or_raise IndexError (iloc_columns mask df);
                alloc (Frame df));
  geno_copy ← (df ← load_frame geno_slice; alloc (Frame df));
  genotypes ← (df ← load_frame geno_copy; ret (values df));
  t ← load_array3 model_m;
  t ← or_raise ValueError (set_term 1 genotypes t);
  store model_m (Array3 t);;
  (* line 397 *)
  df ← load_frame geno_df;
  let sample_names := mask_select mask (columns df) in
  cov_m ← fill_covariates self self_n_eqtls self_n_individuals
                          model_m cov_m;
  (* lines 414-416 *)
  noise_m ← normal_matrix self_n_eqtls self_n_individuals;
  t ← load_array3 model_m;
  t ← or_raise ValueError (set_term (n_terms self - 1) noise_m t);
  store model_m (Array3 t);;
  (* lines 418-419 *)
  log_info "\tExample model" [];;
  t ← load_array3 model_m;
  example ← or_raise IndexError (t !! 0%nat);
  _ ← or_raise ValueError
        (pd_DataFrame example sample_names (model_columns self));
  print "model_m[0, :, :]";;
  ret (model_m, sample_names, cov_m, noise_m).

(** Lines 423-433: the betas. *)
Definition generate_model_betas (self : main) (self_n_eqtls : nat)
    (intercept_beta_a : vector) (geno_beta_a : loc) : M loc :=
  log_info "\tGenerating model beta's" [];;
  beta_m ← alloc (Array2 (np_empty2 self_n_eqtls (n_terms self)));
  b ← load_array2 beta_m;
  b ← or_raise ValueError (set_column 0 intercept_beta_a b);
  store beta_m (Array2 b);;
  g ← load_array1 geno_beta_a;
  b ← load_array2 beta_m;
  b ← or_raise ValueError (set_column 1 g b);
  store beta_m (Array2 b);;
  for_ (seq 0 (n_covariates self))
    (λ i, v ← normal_vector self_n_eqtls;
          b ← load_array2 beta_m;
          b ← or_raise ValueError (set_column (i + 2) v b);
          store beta_m (Array2 b));;
  for_ (seq 0 (n_interaction_covariates self))
    (λ i, v ← normal_vector self_n_eqtls;
          b ← load_array2 beta_m;
          b ← or_raise ValueError
                (set_column (i + n_covariates self + 2) v b);
          store beta_m (Array2 b));;
  b ← load_array2 beta_m;
  store beta_m (Array2 (fill_column (n_terms self - 1) 1 b));;
  ret beta_m.

(** Line 437. *)
Definition calculate_expression (model_m beta_m : loc) : M matrix :=
  log_info "\tCalculating simulated expression" [];;
  t ← load_array3 model_m;
  b ← load_array2 beta_m;
  or_raise ValueError (einsum t b).


(** Lines 452-463 and 468-482: a table of correlations between the
    hidden covariates and a set of starting vectors, written to
    [file]. *)
Definition save_correlations (self : main) (simulation_id : nat)
    (cov_m : option loc) (vectors : matrix) (names : list string)
    (file : string) : M unit :=
  c ← subscript cov_m;
  rp ← corrcoef (get_columns (n_known_covariates self)
                             (n_covariates self) c)
                (np_transpose vectors);
  let hidden :=
    slice (n_known_covariates self + 2) (n_covariates self + 2)
          (model_columns self) in
  coef_df ← (df ← or_raise ValueError (pd_DataFrame rp.1 hidden names);
             alloc (FloatFrame df));
  pvalue_df ← (df ← or_raise ValueError (pd_DataFrame rp.2 hidden names);
               alloc (FloatFrame df));
  corr_out_df ← merge_coef_and_p coef_df pvalue_df;
  print "corr_out_df";;
  df ← load corr_out_df;
  save_file simulation_id file df.

(** Lines 441-482: the starting vectors.  The result is the frame of
    expression PCs and the matrix of random vectors. *)
Definition generate_starting_vectors (self : main)
    (simulation_id self_n_individuals : nat) (expr_m : matrix)
    (sample_names : list string) (cov_m : option loc)
  : M (loc * matrix) :=
  log_info "\tGenerating starting vectors" [];;
  let stds := column_stds expr_m in
  let zscores :=
    div_rows (sub_rows expr_m (column_means expr_m)) stds in
  (* a column without variation has NaN z-scores, which [PCA.fit]
     refuses with a [ValueError] *)
  components ←
    or_raise ValueError
      (if forallb (λ s, negb (Qeq_bool s 0)) stds
       then pca_components (n_starting_vectors self) zscores
       else None);
  expr_pcs_df ←
    alloc (Frame {| index := pretty <$> seq 0 (length components);
                    columns := pretty <$> seq 0 (n_columns components);
                    values := components |});
  (* line 446 *)
  df ← load_frame expr_pcs_df;
  store expr_pcs_df
        (Frame {| index := imap (λ i _, "PC" +:+ pretty (i + 1)%nat)
                                (index df);
                  columns := columns df; values := values df |});;
  (* line 447 *)
  df ← load_frame expr_pcs_df;
  (if decide (length sample_names = length (columns df))
   then store expr_pcs_df
              (Frame {| index := index df; columns := sample_names;
                        values := values df |})
   else raise ValueError);;
  print "expr_pcs_df";;
  (* lines 450-464 *)
  df ← load_frame expr_pcs_df;
  when (0 <? n_hidden_covariates self)%nat
    (log_info "\tChecking correlation with real PICs" [];;
     save_correlations self simulation_id cov_m components (index df)
                       "hidden_covariate_PC_correlations.txt.gz");;
  (* lines 466-482 *)
  log_info "\t Generating random starting vectors" [];;
  random_start_m ←
    normal_matrix (n_starting_vectors self) self_n_individuals;
  save_correlations self simulation_id cov_m random_start_m
    ((λ i, "Random" +:+ pretty (i + 1)%nat)
       <$> seq 0 (n_starting_vectors self))
    "hidden_covariate_random_correlations.txt.gz";;
  ret (expr_pcs_df, random_start_m).

(** Lines 486-502. *)
Definition save_data (self : main) (simulation_id : nat)
    (eqtl_names gene_names sample_names : list string)
    (cov_m : option loc) (beta_m : loc) (expr_m : matrix)
    (expr_pcs_df : loc) (random_start_m : matrix) : M unit :=
  log_info "\tSaving data" [];;
  when (0 <? n_known_covariates self)%nat
    (c ← subscript cov_m;
     df ← or_raise ValueError
            (pd_DataFrame (get_columns 0 (n_known_covariates self) c)
               sample_names
               (slice 2 (n_known_covariates self + 2)
                      (model_columns self)));
     save_file simulation_id "tech_covariates_with_interaction_df.txt.gz"
               (Frame df));;
  when (0 <? n_hidden_covariates self)%nat
    (c ← subscript cov_m;
     df ← or_raise ValueError
            (pd_DataFrame
               (get_columns (n_known_covariates self)
                            (n_covariates self) c)
               sample_names
               (slice (n_known_covariates self + 2)
                      (n_covariates self + 2) (model_columns self)));
     save_file simulation_id "PICs.txt.gz" (Frame df));;
  b ← load_array2 beta_m;
  df ← or_raise ValueError
         (pd_DataFrame b eqtl_names (model_columns self));
  save_file simulation_id "model_betas.txt.gz" (Frame df);;
  df ← or_raise ValueError (pd_DataFrame expr_m gene_names sample_names);
  save_file simulation_id "expression_table.txt.gz" (Frame df);;
  df ← load expr_pcs_df;
  save_file simulation_id
    ("first" +:+ pretty (n_starting_vectors self)
       +:+ "ExpressionPCs.txt.gz") df;;
  df ← or_raise ValueError
         (pd_DataFrame random_start_m
            ((λ i, "Random" +:+ pretty (i + 1)%nat)
               <$> seq 0 (n_starting_vectors self))
            sample_names);
  save_file simulation_id
    (pretty (n_starting_vectors self) +:+ "RandomVectors.txt.gz")
    (Frame df);;
  log_info "" [].

(** Lines 388-437: model matrix, betas and expression of one
    experiment. *)
Definition simulate (self : main) (geno_df : loc)
    (self_n_eqtls self_n_individuals : nat)
    (intercept_beta_a : vector) (geno_beta_a : loc)
    (individuals_mask : loc) (cov_m : option loc) : M simulation :=
  built ← construct_model_matrix self geno_df self_n_eqtls
             self_n_individuals individuals_mask cov_m;
  beta_m ← generate_model_betas self self_n_eqtls
             intercept_beta_a geno_beta_a;
  expr_m ← calculate_expression built.1.1.1 beta_m;
  ret {| model_m := built.1.1.1; sample_names := built.1.1.2;
         cov_m_used := built.1.2; noise_m := built.2;
         beta_m := beta_m; expr_m := expr_m |}.

(** One pass of the loop over the experiments, lines 374-504. *)
Definition experiment (self : main) (geno_df : loc)
    (n_individuals : nat) (self_n_individuals : Z) (self_n_eqtls : nat)
    (eqtl_names gene_names : list string)
    (intercept_beta_a : vector) (geno_beta_a : loc)
    (vars : locals) (simulation_id : nat) : M locals :=
  log_info "  Simulation {}" [Z.of_nat simulation_id];;
  (* lines 381-386 *)
  individuals_mask ←
    (if bool_decide (self_n_individuals ≠ Z.of_nat n_individuals)
        && resample_individuals self
     then
       log_info "\tResampling individuals" [];;
       mask ← alloc (BoolArray (replicate n_individuals true));
       draw_individuals mask n_individuals self_n_individuals;;
       ret mask
     else ret (individuals_mask vars));
  sim ← simulate self geno_df self_n_eqtls (Z.to_nat self_n_individuals)
          intercept_beta_a geno_beta_a individuals_mask (cov_m vars);
  starts ← generate_starting_vectors self simulation_id
             (Z.to_nat self_n_individuals) (expr_m sim)
             (sample_names sim) (cov_m_used sim);
  save_data self simulation_id eqtl_names gene_names (sample_names sim)
            (cov_m_used sim) (beta_m sim) (expr_m sim) starts.1 starts.2;;
  ret {| individuals_mask := individuals_mask;
         cov_m := cov_m_used sim |}.

Fixpoint experiments (body : locals -> nat -> M locals)
    (simulation_ids : list nat) (vars : locals) : M locals :=
  match simulation_ids with
  | [] => ret vars
  | simulation_id :: rest =>
      vars ← body vars simulation_id;
      experiments body rest vars
  end.

(** Lines 305-308: an option that was not given is the size of the
    genotype matrix. *)
Definition requested_individuals (self : main) (n_individuals_ : nat)
  : Z :=
  default (Z.of_nat n_individuals_) (n_individuals self).

Definition requested_eqtls (self : main) (n_eqtls_ : nat) : nat :=
  default n_eqtls_ (n_eqtls self).

(** Lines 316-507 of [start]: what follows the check of the inputs. *)
Definition generate (self : main) (geno_df : loc)
    (eqtl_df : list eqtl_row) (n_eqtls_ n_individuals_ : nat) : M unit :=
  let self_n_individuals := requested_individuals self n_individuals_ in
  let self_n_eqtls := requested_eqtls self n_eqtls_ in
  let eqtl_names :=
    (λ r, ProbeName r +:+ "_" +:+ SNPName r) <$> eqtl_df in
  let gene_names := ProbeName <$> eqtl_df in
  (* lines 321-329 *)
  intercept_beta_a ←
    (if use_real_intercept_beta self then
       log_info "Using real intercept beta's" [];;
       avg_expr_df ← load_file_frame (avg_expression self) None;
       or_raise KeyError (loc_flatten gene_names avg_expr_df)
     else ret (replicate self_n_eqtls 1%Q));
  geno_beta_a ← generate_genotype_beta self eqtl_df self_n_eqtls;
  individuals_mask ← select_individuals n_individuals_ self_n_individuals;
  (* lines 357-361 *)
  cov_m ←
    (if (0 <? n_covariates self)%nat then
       log_info "Generate covariate matrix" [];;
       c ← normal_matrix (Z.to_nat self_n_individuals) (n_covariates self);
       l ← alloc (Array2 c);
       ret (Some l)
     else ret None);
  log_info "Generate experiments" [];;
  experiments
    (experiment self geno_df n_individuals_ self_n_individuals
                self_n_eqtls eqtl_names gene_names
                intercept_beta_a geno_beta_a)
    (seq 1 (Z.to_nat (n_experiments self)))
    {| individuals_mask := individuals_mask; cov_m := cov_m |};;
  log_info "Finished" [];;
  log_info "" [].

(** [start], lines 288-507. *)
Definition start (self : main) : M unit :=
  log_info "Starting program" [];;
  print_arguments;;
  log_info "Loading input data" [];;
  eqtl_df ← load_file (eqtl self) (n_eqtls self);
  print "eqtl_df";;
  geno_df ← (df ← load_file_frame (Some (genotype self)) (n_eqtls self);
             alloc (Frame df));
  print "geno_df";;
  df ← load_frame geno_df;
  let n_eqtls_ := length (index df) in
  let n_individuals_ := length (columns df) in
  log_info "\tLoaded {:,} eQTLs" [Z.of_nat n_eqtls_];;
  log_info "\tLoaded {:,} individuals" [Z.of_nat n_individuals_];;
  when (bool_decide (SNPName <$> eqtl_df ≠ index df))
    (log_error "\tError, eQTL file and genotype file don't match." [];;
     exit_ None);;
  generate self geno_df eqtl_df n_eqtls_ n_individuals_.

End Main.

(** *** Invariants of runs *)

(** A run keeps an invariant [J] of the world, whatever its outcome,
    and its result satisfies [Q] when it returns. *)
Definition keeps `{NumpyRandom} (J : world -> Prop) {A : Type}
    (m : M A) (Q : A -> Prop) : Prop :=
  ∀ w, J w -> J (m w).2 ∧ ∀ a, (m w).1 = Return a -> Q a.

(** A run that ends the same way in every world and leaves the world
    as it was: it neither reads nor writes the generator, the objects
    or the log. *)
Definition pure `{NumpyRandom} {A : Type} (m : M A) : Prop :=
  ∃ r, ∀ w, m w = (r, w).

(** Relative to a world [w0] and a bound [b] on its locations: the
    objects below [b] are as in [w0], and new objects are created at
    [b] or above. *)
Definition frame `{NumpyRandom} (b : loc) (w0 w : world) : Prop :=
  (b <= next_loc w)%nat ∧ ∀ l, (l < b)%nat -> heap w !! l = heap w0 !! l.

(** Relative to a world [w0]: no event of the kind [P] was logged
    since. *)
Definition silent `{NumpyRandom} (P : event -> Prop)
    `{∀ e, Decision (P e)} (w0 w : world) : Prop :=
  filter P (log w) = filter P (log w0).


Definition is_saved (e : event) : Prop :=
  match e with
  | Saved _ _ _ => True
  | _ => False
  end.

#[global] Instance is_saved_dec e : Decision (is_saved e).
Proof. destruct e; simpl; apply _. Defined.

(** An invariant with what it takes to be kept by the primitive
    statements: logging an event of the kind [inv_ok], a draw from the
    generator, the creation of an object (whose location is then
    [inv_fresh]) and a write to an [inv_fresh] location. *)
Record invariant `{NumpyRandom} : Type := {
  inv : world -> Prop;
  inv_ok : event -> Prop;
  inv_fresh : loc -> Prop;
  inv_logged : ∀ e w, inv_ok e -> inv w -> inv (logged e w);
  inv_reseeded : ∀ s w, inv w -> inv (reseeded s w);
  inv_allocated : ∀ o w, inv w -> inv (allocated o w) ∧ inv_fresh (next_loc w);
  inv_stored : ∀ l o w, inv_fresh l -> inv w -> inv (stored l o w);
  inv_ok_info :
    ∀ t a, t ≠ "  Simulation {}" ->
           inv_ok (Info {| template := t; args := a |});
  inv_ok_error : ∀ msg, inv_ok (Error msg);
  inv_ok_stdout : ∀ what, inv_ok (Stdout what)
}.

(** Nothing of the kind [P] is logged, for a kind [P] that holds of no
    error, no printed table and no line but the one that announces an
    experiment. *)
Program Definition silent_invariant `{NumpyRandom} (P : event -> Prop)
    `{∀ e, Decision (P e)}
    (P_info : ∀ t a, t ≠ "  Simulation {}" ->
                     ¬ P (Info {| template := t; args := a |}))
    (P_error : ∀ msg, ¬ P (Error msg))
    (P_stdout : ∀ what, ¬ P (Stdout what))
    (w0 : world) : invariant :=
  {| inv := silent P w0;
     inv_ok := λ e, ¬ P e;
     inv_fresh := λ _, True |}.
Next Obligation.
  intros R P Pdec _ _ _ w0 e w He Hw. unfold silent in *. cbn [log logged].
  rewrite filter_app, Hw, filter_cons_False by exact He.
  apply app_nil_r.
Qed.
Next Obligation. intros; assumption. Qed.
Next Obligation. intros; split; [assumption | exact I]. Qed.
Next Obligation. intros; assumption. Qed.
Next Obligation. intros R P Pdec P_info; intros. apply P_info. assumption. Qed.
Next Obligation. intros R P Pdec P_info P_error; intros. apply P_error. Qed.
Next Obligation. intros R P Pdec P_info P_error P_stdout; intros. apply P_stdout. Qed.

(** The objects below [b] are kept; every event is admitted. *)
Program Definition frame_invariant `{NumpyRandom} (b : loc) (w0 : world)
  : invariant :=
  {| inv := frame b w0;
     inv_ok := λ _, True;
     inv_fresh := λ l, (b <= l)%nat |}.
Next Obligation. intros; assumption. Qed.
Next Obligation. intros; assumption. Qed.
Next Obligation.
  intros R b w0 o w [Hb Hl].
  split; [split|exact Hb]; cbn [next_loc heap allocated].
  - lia.
  - intros l Hlt. rewrite lookup_insert_ne by lia. auto.
Qed.
Next Obligation.
  intros R b w0 l o w Hbl [Hb Hl]. cbv beta in Hbl.
  split; cbn [next_loc heap stored]; [exact Hb|].
  intros l' Hlt. rewrite lookup_insert_ne by lia. auto.
Qed.
Next Obligation. intros; exact I. Qed.
Next Obligation. intros; exact I. Qed.
Next Obligation. intros; exact I. Qed.




(** *** A reference platform

    One concrete generator and one concrete set of numerics, to run
    the program on examples. *)

(** A generator whose state counts the draws: the normal draws cycle
    through seven values, and [choice] picks the first [size] indices. *)
Program Definition counter_random : NumpyRandom :=
  {| RandomState := nat;
     standard_normal := λ s, ((Z.of_nat (s mod 7) - 3) # 2, S s);
     choice_without_replacement := λ n size s, (seq 0 size, S s) |}.
Next Obligation.
  intros n size s Hle. simpl. split; [apply NoDup_seq|].
  split; [apply length_seq|].
  apply Forall_forall. intros i Hi. apply elem_of_seq in Hi. lia.
Qed.

(** Decimal literals [d.d] with an optional sign. *)
Fixpoint digits (s : string) (acc : option (Z * Z)) : option (Z * Z) :=
  match s with
  | EmptyString => acc
  | String c rest =>
      let n := Z.of_nat (nat_of_ascii c) - 48 in
      if (0 <=? n) && (n <=? 9)
      then digits rest (Some (match acc with
                              | Some (v, scale) => (10 * v + n, 10 * scale)
                              | None => (n, 10)
                              end))
      else None
  end.

Fixpoint after (sep : ascii) (s : string) : string :=
  match s with
  | EmptyString => EmptyString
  | String c rest => if Ascii.eqb c sep then rest else after sep rest
  end.

Definition parse_decimal (s : string) : option Q :=
  let '(sign, body) :=
    match s with
    | String "-" rest => (-1, rest)
    | _ => (1, s)
    end in
  whole ← digits (before "." body) None;
  match after "." body with
  | EmptyString => Some (inject_Z (sign * whole.1))
  | fraction =>
      f ← digits fraction None;
      Some (Qred ((sign * (whole.1 * f.2 + f.1)) # Z.to_pos f.2))
  end.

(** Stand-ins for the library numerics: the identity for [sqrt], the
    third argument for [betainc], constant components of the right
    shape for PCA (rejecting more components than rows or columns),
    the order as given for [sort_values], and 99 in fresh memory. *)
Program Definition reference_numerics : Numerics :=
  {| np_sqrt := λ x, x;
     betainc := λ _ _ x, x;
     pca_components := λ k m,
       if decide (k <= length m ∧ k <= n_columns m)%nat
       then Some (replicate k (replicate (n_columns m) 1%Q))
       else None;
     parse_float := parse_decimal;
     sort_values_by_abs_coef := λ rows, rows;
     uninitialised := λ _ _ _, 99%Q |}.
Next Obligation.
  intros k m c. cbv beta. destruct (decide _); [|discriminate].
  intros [= <-]. apply length_replicate.
Qed.

Definition empty_world (R : NumpyRandom) (seed : RandomState) : world :=
  {| np_random := seed; heap := ∅; next_loc := 0%nat; log := [] |}.

(** A study of two eQTLs and three individuals. *)
Definition eqtl_example : list eqtl_row :=
  [ {| SNPName := "snp1"; ProbeName := "gene1";
       AlleleAssessed := "A"; Meta_Beta_SE := "0.5 (0.1)" |};
    {| SNPName := "snp2"; ProbeName := "gene2";
       AlleleAssessed := "C"; Meta_Beta_SE := "-1.25 (0.2)" |} ].

Definition genotype_example : DataFrame :=
  {| index := ["snp1"; "snp2"];
     columns := ["ind1"; "ind2"; "ind3"];
     values := [[0; 1; 2]; [2; 1; 0]]%Q |}.

Definition alleles_example : list alleles_row :=
  [ {| alleles_label := "snp1"; Alleles := "A/G";
       AlleleAssessed_ := None |};
    {| alleles_label := "snp2"; Alleles := "T/C";
       AlleleAssessed_ := None |} ].

(** The events that belong to an experiment: the line that announces
    it and the files written for it. *)
Definition is_experiment_event (e : event) : Prop :=
  match e with
  | Saved _ _ _ => True
  | Info msg => template msg = "  Simulation {}"
  | _ => False
  end.

#[global] Instance is_experiment_event_dec e :
  Decision (is_experiment_event e).
Proof. destruct e; simpl; apply _. Defined.

Definition experiment_log (l : list event) : list event :=
  filter is_experiment_event l.

Definition main_example : main :=
  {| eqtl := Some eqtl_example;
     avg_expression := None;
     use_real_intercept_beta := false;
     genotype := genotype_example;
     alleles := Some alleles_example;
     use_real_genotype_beta := true;
     n_individuals := Some 2;
     resample_individuals := false;
     n_experiments := 2;
     n_eqtls := None;
     n_known_covariates := 1;
     n_hidden_covariates := 1;
     n_starting_vectors := 2;
     exclude_covariate_interactions := false;
     resample_covariates := false |}.


(** The same study with an eQTL table that names another SNP in its
    second row. *)
Definition main_mismatch : main :=
  {| eqtl := Some [ {| SNPName := "snp1"; ProbeName := "gene1";
                       AlleleAssessed := "A";
                       Meta_Beta_SE := "0.5 (0.1)" |};
                    {| SNPName := "snp9"; ProbeName := "gene2";
                       AlleleAssessed := "C";
                       Meta_Beta_SE := "-1.25 (0.2)" |} ];
     avg_expression := None;
     use_real_intercept_beta := false;
     genotype := genotype_example;
     alleles := None;
     use_real_genotype_beta := false;
     n_individuals := None;
     resample_individuals := false;
     n_experiments := 1;
     n_eqtls := None;
     n_known_covariates := 2;
     n_hidden_covariates := 3;
     n_starting_vectors := 25;
     exclude_covariate_interactions := false;
     resample_covariates := false |}.


(** The documented invocation without covariates:
    [-use_real_genotype_beta -kc 0 -hc 0
     -exclude_covariate_interactions]. *)
Definition main_no_covariates : main :=
  {| eqtl := Some eqtl_example;
     avg_expression := None;
     use_real_intercept_beta := false;
     genotype := genotype_example;
     alleles := Some alleles_example;
     use_real_genotype_beta := true;
     n_individuals := None;
     resample_individuals := false;
     n_experiments := 1;
     n_eqtls := None;
     n_known_covariates := 0;
     n_hidden_covariates := 0;
     n_starting_vectors := 2;
     exclude_covariate_interactions := true;
     resample_covariates := false |}.

(** The study with four individuals requested out of three. *)
Definition main_too_many : main :=
  {| eqtl := Some eqtl_example;
     avg_expression := None;
     use_real_intercept_beta := false;
     genotype := genotype_example;
     alleles := Some alleles_example;
     use_real_genotype_beta := true;
     n_individuals := Some 4;
     resample_individuals := false;
     n_experiments := 2;
     n_eqtls := None;
     n_known_covariates := 1;
     n_hidden_covariates := 1;
     n_starting_vectors := 2;
     exclude_covariate_interactions := false;
     resample_covariates := false |}.






End SimulateExpression.

(** * Theorems *)

Module PicaloFacts.
Import Picalo.

Lemma py_le_int (a b : Z) : py_le (VInt a) (VInt b) = Some (a <=? b).
Proof.
  unfold py_le; simpl. f_equal.
  unfold Qle_bool; simpl. now rewrite !Z.mul_1_r.
Qed.

Lemma adjust_max_iter_int (a b : Z) :
  adjust_max_iter (VInt a) (VInt b)
  = inr (VInt (if a <=? b then b + 1 else a)).
Proof.
  unfold adjust_max_iter. rewrite py_le_int.
  now destruct (a <=? b).
Qed.

(** C2, as stated, fails: with [max_iter = 5] and [min_iter = 10] on
    the command line, [Main] is constructed with [max_iter = 11], not
    with the configured 5. *)
Lemma max_iter_not_as_configured :
  let get_argument := lookup_argument cla_max5_min10 in
  get_argument "max_iter"%string = VInt 5 /\
  get_argument "min_iter"%string = VInt 10 /\
  (keyword max_iter (main_block get_argument)) = Some (VInt 11) /\
  (keyword max_iter (main_block get_argument)) <> Some (get_argument "max_iter"%string).
Proof. repeat split; discriminate. Qed.

(** C2, amended: for integer iteration counts, the bound handed to the
    driver is the configured [max_iter] when it exceeds the configured
    [min_iter], and [min_iter + 1] otherwise. *)
Theorem max_iter_passed (get_argument : string -> value) (a b : Z) :
  get_argument "max_iter"%string = VInt a ->
  get_argument "min_iter"%string = VInt b ->
  (keyword max_iter (main_block get_argument))
  = Some (VInt (if a <=? b then b + 1 else a)) /\
  (b < a -> (keyword max_iter (main_block get_argument))
            = Some (get_argument "max_iter"%string)) /\
  (a <= b -> (keyword max_iter (main_block get_argument))
             = Some (VInt (b + 1))).
Proof.
  intros Ha Hb.
  assert (E : (keyword max_iter (main_block get_argument))
              = Some (VInt (if a <=? b then b + 1 else a))).
  { unfold main_block. rewrite Ha, Hb, adjust_max_iter_int. reflexivity. }
  split; [exact E|]. split; intros H; rewrite E.
  - rewrite Ha. destruct (Z.leb_spec a b); [lia | reflexivity].
  - destruct (Z.leb_spec a b); [reflexivity | lia].
Qed.

Lemma max_iter_passed_witness :
  (keyword max_iter (main_block (lookup_argument cla_max100_min5)))
  = Some (VInt 100).
Proof.
  exact (proj1 (max_iter_passed (lookup_argument cla_max100_min5) 100 5
                  eq_refl eq_refl)).
Defined.


(** C3, as stated, fails for [max_iter]: with [-min_iter 10
    -max_iter 5] the script reaches [Main(...)], the minimum
    iteration count is passed as retrieved, and the maximum iteration
    count that is passed is not the one that was retrieved. *)
Lemma max_iter_not_retrieved :
  let get_argument := lookup_argument cla_max5_min10 in
  ∃ args,
    main_block get_argument = inr args ∧
    min_iter args = get_argument "min_iter"%string ∧
    get_argument "max_iter"%string = VInt 5 ∧
    max_iter args = VInt 11 ∧
    max_iter args ≠ get_argument "max_iter"%string.
Proof.
  eexists. split; [reflexivity|]. repeat split. discriminate.
Qed.

(** C3, amended.  When the iteration counts are integers, the script
    reaches the call [Main(...)]; every option of the configuration
    surface but [max_iter] is bound to the value [get_argument]
    returned for its name; [max_iter] is bound to the retrieved value
    when that exceeds [min_iter], and to [min_iter + 1], which is not
    the retrieved value, otherwise. *)
Theorem configuration_reaches_driver (get_argument : string -> value)
    (a b : Z) :
  get_argument "max_iter"%string = VInt a ->
  get_argument "min_iter"%string = VInt b ->
  ∃ args,
    main_block get_argument = inr args ∧
    genotype_na args = get_argument "genotype_na"%string ∧
    call_rate args = get_argument "call_rate"%string ∧
    hw_pval args = get_argument "hardy_weinberg_pvalue"%string ∧
    maf args = get_argument "minor_allele_frequency"%string ∧
    mgs args = get_argument "min_group_size"%string ∧
    min_dataset_size args = get_argument "min_dataset_size"%string ∧
    n_components args = get_argument "n_components"%string ∧
    min_iter args = get_argument "min_iter"%string ∧
    tol args = get_argument "tol"%string ∧
    force_continue args = get_argument "force_continue"%string ∧
    verbose args = get_argument "verbose"%string ∧
    max_iter args = VInt (if a <=? b then b + 1 else a) ∧
    (b < a -> max_iter args = get_argument "max_iter"%string) ∧
    (a <= b -> max_iter args = VInt (b + 1) ∧
               max_iter args ≠ get_argument "max_iter"%string).
Proof.
  intros Ha Hb. unfold main_block.
  rewrite Ha, Hb, adjust_max_iter_int.
  eexists. split; [reflexivity|]. cbn [genotype_na call_rate hw_pval maf mgs
    min_dataset_size n_components min_iter tol force_continue verbose
    max_iter].
  repeat (split; [first [reflexivity | assumption]|]).
  split; intros Hab; destruct (Z.leb_spec a b); try lia.
  - reflexivity.
  - split; [reflexivity|]. intros [= E]. lia.
Qed.

Lemma configuration_reaches_driver_witness :
  ∃ args,
    main_block (lookup_argument cla_max100_min5) = inr args ∧
    call_rate args = VFloat (95 # 100) ∧
    max_iter args = VInt 100 ∧
    force_continue args = VBool true.
Proof.
  destruct (configuration_reaches_driver (lookup_argument cla_max100_min5)
              100 5 eq_refl eq_refl)
    as (args & E & _ & Hc & _ & _ & _ & _ & _ & _ & _ & Hf & _ & Hm & _).
  exists args. split; [exact E|]. split; [exact Hc|].
  split; [exact Hm | exact Hf].
Defined.

(** *** More on the guard and the call *)







End PicaloFacts.
Module ModelCellFractionsFacts.
Import ModelCellFractions.

Section Lists.
Context {A : Type}.

Lemma filter_fmap_list {B} (f : B -> A) (P : A -> Prop) `{!∀ x, Decision (P x)} (l : list B) :
  filter P (f <$> l) = f <$> filter (P ∘ f) l.
Proof.
  induction l as [|b l IH]; [done|]. rewrite fmap_cons, !filter_cons. simpl.
  destruct (decide (P (f b))); rewrite IH; done.
Qed.

(** Rows that carry a label absent from the index: none. *)
Lemma filter_label_absent (l : string) (rs : list (string * A)) :
  l ∉ rs.*1 -> filter (λ r, r.1 = l) rs = [].
Proof.
  induction rs as [|[k v] rs IH]; [done|]. intros Hl.
  rewrite fmap_cons, not_elem_of_cons in Hl. destruct Hl as [Hne Hl].
  rewrite filter_cons_False by (simpl; intros ->; done). auto.
Qed.

(** Reindexing by labels picked from a duplicate-free index keeps
    the rows with a picked label, in their order. *)
Lemma reindex_filter (P : string -> Prop) `{!∀ x, Decision (P x)}
    (rs : list (string * A)) :
  NoDup rs.*1 ->
  filter P rs.*1 ≫= (λ l, filter (λ r, r.1 = l) rs)
  = filter (λ r, P r.1) rs.
Proof.
  induction rs as [|[k v] rs IH]; [done|].
  rewrite fmap_cons, NoDup_cons. simpl. intros [Hk Hnd].
  assert (E : ∀ ls : list string, Forall (λ l, l ∈ rs.*1) ls ->
             ls ≫= (λ l, filter (λ r, r.1 = l) ((k, v) :: rs))
             = ls ≫= (λ l, filter (λ r, r.1 = l) rs)).
  { induction 1 as [|l ls Hl _ IHls]; [done|].
    rewrite !bind_cons, IHls. f_equal.
    rewrite filter_cons_False; [done|]. simpl. intros ->. done. }
  assert (F : Forall (λ l, l ∈ rs.*1) (filter P rs.*1)).
  { apply Forall_forall. intros l Hl. apply list_elem_of_filter in Hl. tauto. }
  rewrite !filter_cons. simpl. destruct (decide (P k)).
  - rewrite bind_cons, E, IH by done.
    rewrite filter_cons_True by done.
    rewrite (filter_label_absent k rs) by done. done.
  - rewrite E, IH by done. done.
Qed.
End Lists.

Lemma filter_label_present (df : DataFrame) (l : string) :
  NoDup (index df) -> l ∈ index df ->
  filter (λ r, r.1 = l) (rows df) = [(l, row_data df l)].
Proof.
  unfold index, row_data. generalize (rows df). clear df.
  intros rs. induction rs as [|[k v] rs IH]; [by rewrite elem_of_nil|].
  rewrite fmap_cons, NoDup_cons. simpl. intros [Hk Hnd] Hl.
  destruct (decide (k = l)) as [->|Hne].
  - rewrite filter_cons_True by done.
    rewrite filter_label_absent by done.
    cbn. done.
  - rewrite filter_cons_False by done.
    apply elem_of_cons in Hl as [?|Hl]; [congruence|].
    rewrite IH by done. cbn.
    destruct (list_find _ rs) as [[i r]|]; done.
Qed.

Lemma reindex_present (df : DataFrame) (labels : list string) :
  NoDup (index df) -> Forall (λ l, l ∈ index df) labels ->
  rows (loc_rows labels df) = (λ l, (l, row_data df l)) <$> labels.
Proof.
  intros Hnd. unfold loc_rows. simpl.
  induction 1 as [|l ls Hl _ IH]; [done|].
  rewrite bind_cons, IH, filter_label_present by done. done.
Qed.

Lemma index_T (df : DataFrame) : index (T df) = columns df.
Proof.
  unfold index, T. simpl. rewrite fmap_imap.
  unfold compose. simpl.
  induction (columns df) as [|c cs IH] using rev_ind; [done|].
  rewrite imap_app. simpl. by rewrite IH.
Qed.

Lemma select_by_label {A : Type} (m : string -> bool)
    (labelled : list (string * A)) (mask : list (string * bool)) :
  mask = (λ e, (e.1, m e.1)) <$> labelled ->
  select mask labelled = Some (filter (λ e, m e.1 = true) labelled).
Proof.
  intros ->. unfold select.
  rewrite bool_decide_true.
  2:{ rewrite <- list_fmap_compose. done. }
  f_equal. induction labelled as [|[l a] rest IH]; [done|].
  rewrite fmap_cons. simpl. rewrite !filter_cons. simpl.
  destruct (decide (m l = true)); rewrite <- IH; done.
Qed.

Lemma mapM_fmap_Some {A B} (f : A -> option B) (g : A -> B) (l : list A) :
  (∀ x, x ∈ l -> f x = Some (g x)) -> mapM f l = Some (g <$> l).
Proof.
  intros Hf. apply mapM_Some.
  induction l as [|x l IH]; constructor.
  - apply Hf. left.
  - apply IH. intros y Hy. apply Hf. now right.
Qed.

Section Inputs.
Variables cf_df pics_df : DataFrame.
Hypothesis cf_unique : NoDup (index cf_df).
Hypothesis pics_unique : NoDup (columns pics_df).

Let samples : list string :=
  filter (λ sample, sample ∈ index cf_df) (columns pics_df).

Lemma preprocess_pics :
  (preprocess cf_df pics_df).2
  = {| columns := index pics_df;
       rows := filter (λ r, r.1 ∈ index cf_df) (rows (T pics_df)) |}.
Proof.
  unfold preprocess. cbv beta zeta. cbn [snd].
  unfold loc_rows. f_equal.
  pose proof (index_T pics_df) as E. unfold index in E |- *.
  refine (reindex_filter (λ l, l ∈ (rows cf_df).*1) (rows (T pics_df)) _).
  by rewrite E.
Qed.

Lemma preprocess_cf :
  (preprocess cf_df pics_df).1
  = {| columns := columns cf_df;
       rows := (λ l, (l, row_data cf_df l)) <$> samples |}.
Proof.
  unfold preprocess. cbv beta zeta. cbn [fst].
  rewrite index_T. fold samples.
  unfold loc_rows at 1. f_equal.
  apply (reindex_present cf_df samples cf_unique).
  apply Forall_forall. intros l Hl.
  apply list_elem_of_filter in Hl. tauto.
Qed.

Lemma index_pics : index (preprocess cf_df pics_df).2 = samples.
Proof.
  rewrite preprocess_pics. unfold index at 1. cbn [rows].
  etrans; [symmetry; refine (filter_fmap_list fst (λ l, l ∈ index cf_df) _)|].
  fold (index (T pics_df)). by rewrite index_T.
Qed.

Lemma column_cf cell_type :
  loc_column cell_type (preprocess cf_df pics_df).1
  = (λ l, (l, at_ cf_df l cell_type)) <$> samples.
Proof.
  rewrite preprocess_cf. unfold loc_column. simpl.
  rewrite <- list_fmap_compose. done.
Qed.

Lemma mask_cf cell_type :
  mask_of (preprocess cf_df pics_df).1 cell_type
  = (λ l, (l, bool_decide (is_Some (at_ cf_df l cell_type)))) <$> samples.
Proof.
  unfold mask_of, notna. rewrite column_cf, <- list_fmap_compose. done.
Qed.

Lemma filter_usable cell_type :
  filter (λ l, bool_decide (is_Some (at_ cf_df l cell_type)) = true) samples
  = filter (usable cf_df cell_type) (columns pics_df).
Proof.
  unfold samples. rewrite list_filter_filter.
  apply list_filter_iff. intros l. unfold usable.
  rewrite bool_decide_eq_true. tauto.
Qed.

Lemma masked_cf cell_type :
  loc_mask (mask_of (preprocess cf_df pics_df).1 cell_type)
           (loc_column cell_type (preprocess cf_df pics_df).1)
  = Some ((λ s, (s, at_ cf_df s cell_type))
            <$> filter (usable cf_df cell_type) (columns pics_df)).
Proof.
  unfold loc_mask.
  rewrite (select_by_label
             (λ l, bool_decide (is_Some (at_ cf_df l cell_type)))).
  - rewrite column_cf. f_equal.
    etrans; [refine (filter_fmap_list _ _ _)|].
    f_equal. apply filter_usable.
  - rewrite mask_cf, column_cf, <- list_fmap_compose. done.
Qed.

Lemma masked_pics cell_type :
  select (mask_of (preprocess cf_df pics_df).1 cell_type)
         (rows (preprocess cf_df pics_df).2)
  = Some (filter (λ r, usable cf_df cell_type r.1) (rows (T pics_df))).
Proof.
  rewrite (select_by_label
             (λ l, bool_decide (is_Some (at_ cf_df l cell_type)))).
  - rewrite preprocess_pics. cbn [rows]. f_equal.
    rewrite list_filter_filter. apply list_filter_iff.
    intros r. unfold usable. rewrite bool_decide_eq_true. tauto.
  - rewrite mask_cf, <- index_pics. unfold index.
    rewrite <- list_fmap_compose. done.
Qed.

Lemma masked_pic_column cell_type pic :
  loc_mask (mask_of (preprocess cf_df pics_df).1 cell_type)
           (loc_column pic (preprocess cf_df pics_df).2)
  = Some (filter (λ e, usable cf_df cell_type e.1)
                 (loc_column pic (T pics_df))).
Proof.
  unfold loc_mask.
  rewrite (select_by_label
             (λ l, bool_decide (is_Some (at_ cf_df l cell_type)))).
  - rewrite preprocess_pics. unfold loc_column. cbn [rows columns T].
    f_equal.
    etrans; [refine (filter_fmap_list _ _ _)|].
    etrans; [|symmetry; refine (filter_fmap_list _ _ _)].
    f_equal. rewrite list_filter_filter. apply list_filter_iff.
    intros r. unfold usable. simpl. rewrite bool_decide_eq_true. tauto.
  - rewrite mask_cf, <- index_pics. unfold index, loc_column.
    rewrite <- !list_fmap_compose. done.
Qed.

Lemma pic_column_index cell_type pic :
  (filter (λ e, usable cf_df cell_type e.1) (loc_column pic (T pics_df))).*1
  = filter (usable cf_df cell_type) (columns pics_df).
Proof.
  unfold loc_column.
  etrans; [eapply (f_equal (fmap fst)); refine (filter_fmap_list _ _ _)|].
  rewrite <- list_fmap_compose.
  etrans; [symmetry; refine (filter_fmap_list fst (usable cf_df cell_type) _)|].
  fold (index (T pics_df)). by rewrite index_T.
Qed.

Lemma design_index cell_type :
  (filter (λ r, usable cf_df cell_type r.1) (rows (T pics_df))).*1
  = filter (usable cf_df cell_type) (columns pics_df).
Proof.
  etrans; [symmetry; refine (filter_fmap_list fst (usable cf_df cell_type) _)|].
  fold (index (T pics_df)). by rewrite index_T.
Qed.

Lemma design_width cell_type :
  Forall (λ row : list cell, length row = length (index pics_df))
         (filter (λ r, usable cf_df cell_type r.1) (rows (T pics_df))).*2.
Proof.
  apply Forall_fmap, Forall_forall. intros r Hr.
  apply list_elem_of_filter in Hr as [_ Hr].
  unfold T in Hr. cbn [rows] in Hr.
  apply list_elem_of_lookup in Hr as [j Hj].
  rewrite list_lookup_imap in Hj.
  destruct (columns pics_df !! j); [|discriminate].
  injection Hj as <-. cbn. unfold index. by rewrite !length_fmap.
Qed.

Lemma mask_sum_usable cell_type :
  mask_sum (mask_of (preprocess cf_df pics_df).1 cell_type)
  = length (filter (usable cf_df cell_type) (columns pics_df)).
Proof.
  rewrite mask_cf. unfold mask_sum.
  etrans; [eapply (f_equal length); refine (filter_fmap_list _ _ _)|].
  rewrite length_fmap, <- filter_usable. reflexivity.
Qed.

Section Fit.
Variable pearsonr : list cell -> list cell -> Q * Q.
Variable OLS_fit : list cell -> list (list cell) -> OLSResults.

(** What the loop body computes for a cell type when it is given the
    usable samples: the fractions, the values of a PIC and the design
    matrix over them. *)
Let used cell_type := filter (usable cf_df cell_type) (columns pics_df).
Let fractions cell_type := (λ s, at_ cf_df s cell_type) <$> used cell_type.
Let pic_values cell_type pic :=
  (filter (λ e, usable cf_df cell_type e.1) (loc_column pic (T pics_df))).*2.
Let design cell_type :=
  (filter (λ r, usable cf_df cell_type r.1) (rows (T pics_df))).*2.
Let modelled cell_type : list Q * list Q * list Q * string :=
  let results := OLS_fit (fractions cell_type) (design cell_type) in
  ((λ pic, (pearsonr (fractions cell_type) (pic_values cell_type pic)).1)
     <$> index pics_df,
   (λ pic, (pearsonr (fractions cell_type) (pic_values cell_type pic)).2)
     <$> index pics_df,
   [inject_Z (Z.of_nat (length (used cell_type))); rsquared results]
     ++ params results ++ bse results,
   cell_type +:+ " [N=" +:+ format_N (length (used cell_type)) +:+ "]").

Lemma pearsonr_over_usable cell_type pic :
  (x ← pearsonr_x (preprocess cf_df pics_df).1 cell_type;
   y ← pearsonr_y (preprocess cf_df pics_df).1 (preprocess cf_df pics_df).2
                  cell_type pic;
   stats_pearsonr pearsonr x.*2 y.*2)
  = if decide (2 <= length (used cell_type))%nat
    then Some (pearsonr (fractions cell_type) (pic_values cell_type pic))
    else None.
Proof.
  unfold pearsonr_x, pearsonr_y.
  rewrite masked_cf, masked_pic_column. cbn [mbind option_bind].
  rewrite <- list_fmap_compose.
  change (snd ∘ (λ s : string, (s, at_ cf_df s cell_type)))
    with (λ s : string, at_ cf_df s cell_type).
  fold (used cell_type). fold (fractions cell_type).
  fold (pic_values cell_type pic).
  unfold stats_pearsonr.
  assert (L1 : length (fractions cell_type) = length (used cell_type))
    by (unfold fractions; by rewrite length_fmap).
  assert (L2 : length (pic_values cell_type pic) = length (used cell_type)).
  { unfold pic_values, used. rewrite <- (pic_column_index cell_type pic).
    by rewrite !length_fmap. }
  rewrite L1, L2.
  destruct (decide (2 <= length (used cell_type))%nat);
    destruct (decide _) as [[_ ?]|N]; try done.
  exfalso. apply N. done.
Qed.

Lemma model_cell_type_usable cell_type :
  (2 <= length (used cell_type))%nat ->
  model_cell_type pearsonr OLS_fit (preprocess cf_df pics_df).1
                  (preprocess cf_df pics_df).2 cell_type
  = Some (modelled cell_type).
Proof.
  intros Hn. unfold model_cell_type.
  rewrite (mapM_fmap_Some _
             (λ pic, pearsonr (fractions cell_type)
                              (pic_values cell_type pic))).
  2: { intros pic _. etrans; [exact (pearsonr_over_usable cell_type pic)|].
       by destruct (decide _). }
  cbn [mbind option_bind]. unfold ols_endog, ols_exog, loc_mask_rows.
  rewrite masked_cf, masked_pics. cbn [mbind option_bind rows].
  rewrite mask_sum_usable. rewrite preprocess_pics. cbn [columns].
  rewrite <- !list_fmap_compose.
  reflexivity.
Qed.


Lemma start_tables :
  (∀ cell_type, cell_type ∈ columns cf_df ->
                (2 <= length (used cell_type))%nat) ->
  let per_type := modelled <$> columns cf_df in
  start pearsonr OLS_fit cf_df pics_df
  = Some {| correlation_df :=
              frame_of per_type.*2 (index pics_df) per_type.*1.*1.*1;
            pvalue_df :=
              frame_of per_type.*2 (index pics_df) per_type.*1.*1.*2;
            ols_results_df :=
              add_tvalues (index pics_df)
                (frame_of per_type.*2
                   (["N"; "R2"]
                      ++ ((λ col, col +:+ " beta") <$> index pics_df)
                      ++ ((λ col, col +:+ " std err") <$> index pics_df))
                   per_type.*1.*2) |}.
Proof.
  intros Hn per_type. unfold start.
  rewrite (surjective_pairing (preprocess cf_df pics_df)).
  rewrite (mapM_fmap_Some _ modelled).
  2: { intros cell_type Hc. apply model_cell_type_usable, Hn.
       by rewrite preprocess_cf in Hc. }
  cbn [mbind option_bind].
  rewrite preprocess_cf, preprocess_pics. cbn [columns].
  reflexivity.
Qed.

End Fit.
End Inputs.

(** C9.  For unique sample labels, every cell type is correlated and
    fitted over the samples of the PIC matrix that also index the
    cell-fraction matrix and have a cell fraction that is not missing
    (scipy needs two of them): the loop body hands [pearsonr] the cell
    fractions of exactly these samples and the values of the PIC for
    exactly these samples, and hands [OLS] the same fractions and the
    transposed PIC matrix restricted to these samples, its columns the
    PICs and nothing else (no constant column); [start] builds its
    tables from these results, cell type after cell type. *)
Theorem fits_over_usable_samples
    (pearsonr : list cell -> list cell -> Q * Q)
    (OLS_fit : list cell -> list (list cell) -> OLSResults)
    (cf_df pics_df : DataFrame) :
  NoDup (index cf_df) -> NoDup (columns pics_df) ->
  let cf' := (preprocess cf_df pics_df).1 in
  let pics' := (preprocess cf_df pics_df).2 in
  let used cell_type := filter (usable cf_df cell_type) (columns pics_df) in
  let fractions cell_type :=
    (λ s, at_ cf_df s cell_type) <$> used cell_type in
  let pic_column cell_type pic :=
    filter (λ e, usable cf_df cell_type e.1) (loc_column pic (T pics_df)) in
  let design cell_type :=
    filter (λ r, usable cf_df cell_type r.1) (rows (T pics_df)) in
  let modelled cell_type :=
    let results :=
      OLS_fit (fractions cell_type) (design cell_type).*2 in
    ((λ pic, (pearsonr (fractions cell_type)
                       (pic_column cell_type pic).*2).1) <$> index pics_df,
     (λ pic, (pearsonr (fractions cell_type)
                       (pic_column cell_type pic).*2).2) <$> index pics_df,
     [inject_Z (Z.of_nat (length (used cell_type))); rsquared results]
       ++ params results ++ bse results,
     cell_type +:+ " [N=" +:+ format_N (length (used cell_type)) +:+ "]") in
  let per_type := modelled <$> columns cf_df in
  (∀ cell_type s,
      s ∈ used cell_type ↔
      s ∈ columns pics_df ∧ s ∈ index cf_df
      ∧ is_Some (at_ cf_df s cell_type)) ∧
  (∀ cell_type pic, (pic_column cell_type pic).*1 = used cell_type) ∧
  (∀ cell_type,
      (design cell_type).*1 = used cell_type ∧
      Forall (λ row : list cell, length row = length (index pics_df))
             (design cell_type).*2) ∧
  (∀ cell_type,
      (2 <= length (used cell_type))%nat ->
      model_cell_type pearsonr OLS_fit cf' pics' cell_type
      = Some (modelled cell_type)) ∧
  ((∀ cell_type, cell_type ∈ columns cf_df ->
                 (2 <= length (used cell_type))%nat) ->
   start pearsonr OLS_fit cf_df pics_df
   = Some {| correlation_df :=
               frame_of per_type.*2 (index pics_df) per_type.*1.*1.*1;
             pvalue_df :=
               frame_of per_type.*2 (index pics_df) per_type.*1.*1.*2;
             ols_results_df :=
               add_tvalues (index pics_df)
                 (frame_of per_type.*2
                    (["N"; "R2"]
                       ++ ((λ col, col +:+ " beta") <$> index pics_df)
                       ++ ((λ col, col +:+ " std err") <$> index pics_df))
                    per_type.*1.*2) |}).
Proof.
  intros Hcf Hpics cf' pics' used fractions pic_column design modelled
    per_type.
  split; [|split; [|split; [|split]]].
  - intros cell_type s. unfold used. rewrite list_elem_of_filter.
    unfold usable. tauto.
  - intros cell_type pic. by apply pic_column_index.
  - intros cell_type. split.
    + by apply design_index.
    + by apply design_width.
  - intros cell_type Hn.
    exact (model_cell_type_usable cf_df pics_df Hcf Hpics pearsonr OLS_fit
             cell_type Hn).
  - intros Hn.
    exact (start_tables cf_df pics_df Hcf Hpics pearsonr OLS_fit Hn).
Qed.

Lemma fits_over_usable_samples_witness :
  model_cell_type pearsonr_example OLS_fit_example
    (preprocess cf_example pics_example).1
    (preprocess cf_example pics_example).2 "Neut"
  = Some ([6 # 10; 6 # 10]%Q, [1; -1]%Q, [2; 2; 1; 1; 2; 2]%Q, "Neut [N=2]")
  ∧ ∃ tables,
      start pearsonr_example OLS_fit_example cf_example pics_example
      = Some tables
      ∧ rows (correlation_df tables)
        = [("Neut [N=2]", [Some (6 # 10); Some (6 # 10)]%Q);
           ("Lymph [N=3]", [Some (3 # 10); Some (3 # 10)]%Q)].
Proof.
  assert (Hcf : NoDup (index cf_example))
    by (apply (bool_decide_unpack _); vm_compute; exact I).
  assert (Hpics : NoDup (columns pics_example))
    by (apply (bool_decide_unpack _); vm_compute; exact I).
  destruct (fits_over_usable_samples pearsonr_example OLS_fit_example
              cf_example pics_example Hcf Hpics)
    as (_ & _ & _ & Hm & Hs).
  split.
  - rewrite (Hm "Neut") by (vm_compute; lia). vm_compute. reflexivity.
  - eexists. split.
    + apply Hs. intros cell_type Hc.
      apply elem_of_cons in Hc as [->|Hc]; [vm_compute; lia|].
      apply elem_of_cons in Hc as [->|Hc]; [vm_compute; lia|].
      by apply elem_of_nil in Hc.
    + vm_compute. reflexivity.
Defined.

(** *** The tables of [start] *)










End ModelCellFractionsFacts.
Module SimulateExpressionFacts.
Import SimulateExpression.

(** *** Boolean masks *)

Section Masks.
Context {A : Type}.

Lemma length_mask_select (mask : list bool) (l : list A) :
  length mask = length l ->
  length (mask_select mask l) = n_selected mask.
Proof.
  unfold mask_select, n_selected. rewrite length_fmap.
  revert l. induction mask as [|b mask IH]; intros [|x l] E;
    try discriminate; [done|].
  simpl in E. injection E as E. cbn [zip zip_with].
  rewrite !filter_cons. simpl.
  destruct (decide (b = true)); simpl; rewrite IH; done.
Qed.

Lemma mask_select_sublist (mask : list bool) (l : list A) :
  sublist (mask_select mask l) l.
Proof.
  unfold mask_select.
  revert l. induction mask as [|b mask IH]; intros [|x l];
    try apply sublist_nil_l.
  cbn [zip zip_with]. rewrite filter_cons. simpl.
  destruct (decide (b = true)); simpl.
  - apply sublist_skip, IH.
  - apply sublist_cons, IH.
Qed.

Lemma mask_select_all (l : list A) :
  mask_select (replicate (length l) true) l = l.
Proof.
  unfold mask_select. induction l as [|x l IH]; [done|].
  cbn [length replicate zip zip_with].
  rewrite filter_cons_True by done. rewrite fmap_cons. simpl. by f_equal.
Qed.

End Masks.

Lemma length_clear_mask idx mask :
  length (clear_mask idx mask) = length mask.
Proof.
  induction idx as [|i idx IH]; [done|].
  simpl. by rewrite length_insert.
Qed.

Lemma clear_mask_lookup_ne idx mask j :
  j ∉ idx -> clear_mask idx mask !! j = mask !! j.
Proof.
  induction idx as [|i idx IH]; [done|].
  rewrite not_elem_of_cons. intros [Hne Hj]. simpl.
  rewrite list_lookup_insert_ne by done. auto.
Qed.

Lemma n_selected_insert_false mask i :
  mask !! i = Some true ->
  (n_selected (<[i:=false]> mask) + 1 = n_selected mask)%nat.
Proof.
  intros Hi. unfold n_selected.
  rewrite insert_take_drop by (eapply lookup_lt_Some; eauto).
  rewrite <- (take_drop_middle mask i true Hi) at 3.
  rewrite !filter_app, !filter_cons. simpl.
  rewrite !length_app. simpl. lia.
Qed.

(** Clearing distinct entries that are set lowers the count by their
    number. *)
Lemma n_selected_clear_mask idx mask :
  NoDup idx -> Forall (λ i, mask !! i = Some true) idx ->
  (n_selected (clear_mask idx mask) + length idx = n_selected mask)%nat.
Proof.
  induction idx as [|i idx IH]; intros Hnd Hall; [simpl; lia|].
  apply NoDup_cons in Hnd as [Hi Hnd]. apply Forall_cons in Hall as [Hm Hall].
  simpl. pose proof (n_selected_insert_false (clear_mask idx mask) i) as E.
  rewrite clear_mask_lookup_ne in E by done.
  specialize (E Hm). specialize (IH Hnd Hall). lia.
Qed.

Section Runs.
Context `{NumpyRandom} `{Numerics}.

Lemma bind_Return {A B} (m : M A) (k : A -> M B) w a w1 :
  m w = (Return a, w1) -> (m ≫= k) w = k a w1.
Proof. intros E. unfold mbind, M_bind, bind. now rewrite E. Qed.

Lemma bind_Raised {A B} (m : M A) (k : A -> M B) w e w1 :
  m w = (Raised e, w1) -> (m ≫= k) w = (Raised e, w1).
Proof. intros E. unfold mbind, M_bind, bind. now rewrite E. Qed.

Lemma bind_Exited {A B} (m : M A) (k : A -> M B) w status w1 :
  m w = (Exited status, w1) -> (m ≫= k) w = (Exited status, w1).
Proof. intros E. unfold mbind, M_bind, bind. now rewrite E. Qed.

Lemma bind_assoc {A B C} (m : M A) (k1 : A -> M B) (k2 : B -> M C) w :
  ((m ≫= k1) ≫= k2) w = (m ≫= (λ a, k1 a ≫= k2)) w.
Proof.
  unfold mbind, M_bind, bind. destruct (m w) as [[a|e|status] w1]; reflexivity.
Qed.

Lemma load_run l o w : heap w !! l = Some o -> load l w = (Return o, w).
Proof. intros E. unfold load. now rewrite E. Qed.

Lemma load_frame_run l df w :
  heap w !! l = Some (Frame df) -> load_frame l w = (Return df, w).
Proof. intros E. unfold load_frame. now rewrite (bind_Return _ _ _ _ _ (load_run _ _ _ E)). Qed.

Lemma load_float_frame_run l df w :
  heap w !! l = Some (FloatFrame df) ->
  load_float_frame l w = (Return df, w).
Proof. intros E. unfold load_float_frame. now rewrite (bind_Return _ _ _ _ _ (load_run _ _ _ E)). Qed.

Lemma load_bools_run l a w :
  heap w !! l = Some (BoolArray a) -> load_bools l w = (Return a, w).
Proof. intros E. unfold load_bools. now rewrite (bind_Return _ _ _ _ _ (load_run _ _ _ E)). Qed.

Lemma load_array1_run l a w :
  heap w !! l = Some (Array1 a) -> load_array1 l w = (Return a, w).
Proof. intros E. unfold load_array1. now rewrite (bind_Return _ _ _ _ _ (load_run _ _ _ E)). Qed.

Lemma load_array2_run l a w :
  heap w !! l = Some (Array2 a) -> load_array2 l w = (Return a, w).
Proof. intros E. unfold load_array2. now rewrite (bind_Return _ _ _ _ _ (load_run _ _ _ E)). Qed.

Lemma load_array3_run l a w :
  heap w !! l = Some (Array3 a) -> load_array3 l w = (Return a, w).
Proof. intros E. unfold load_array3. now rewrite (bind_Return _ _ _ _ _ (load_run _ _ _ E)). Qed.

Lemma load_alleles_run l a w :
  heap w !! l = Some (AllelesFrame a) -> load_alleles l w = (Return a, w).
Proof. intros E. unfold load_alleles. now rewrite (bind_Return _ _ _ _ _ (load_run _ _ _ E)). Qed.

Lemma or_raise_Some {A} e (a : A) w : or_raise e (Some a) w = (Return a, w).
Proof. reflexivity. Qed.

Lemma or_raise_None {A} e w : or_raise (A:=A) e None w = (Raised e, w).
Proof. reflexivity. Qed.


(** How the log of a world extends the log of an earlier one. *)
Lemma log_start (w : world) : log w = log w ++ [].
Proof. now rewrite app_nil_r. Qed.

Lemma log_logged e (w w1 : world) es :
  log w1 = log w ++ es -> log (logged e w1) = log w ++ (es ++ [e]).
Proof. intros E. cbn [log logged]. rewrite E. now rewrite app_assoc. Qed.

Lemma log_allocated o (w w1 : world) es :
  log w1 = log w ++ es -> log (allocated o w1) = log w ++ es.
Proof. intros E. exact E. Qed.

Lemma log_stored l o (w w1 : world) es :
  log w1 = log w ++ es -> log (stored l o w1) = log w ++ es.
Proof. intros E. exact E. Qed.

Lemma log_reseeded s (w w1 : world) es :
  log w1 = log w ++ es -> log (reseeded s w1) = log w ++ es.
Proof. intros E. exact E. Qed.

End Runs.

(** The draws of a run, by name. *)
Section Draws.
Context `{NumpyRandom} `{Numerics}.

Lemma replicateM_run {A} (draw : RandomState -> A * RandomState)
    (m : M A) (n : nat) (w : world) :
  (∀ w, m w = (Return (draw (np_random w)).1,
               reseeded (draw (np_random w)).2 w)) ->
  replicateM n m w
  = (Return (draws draw n (np_random w)).1,
     reseeded (draws draw n (np_random w)).2 w).
Proof.
  intros Hm. revert w. induction n as [|n IH]; intros w.
  - destruct w; reflexivity.
  - cbn [replicateM draws].
    rewrite (bind_Return _ _ _ _ _ (Hm w)).
    rewrite (bind_Return _ _ _ _ _ (IH _)). reflexivity.
Qed.

Lemma normal_vector_run (n : nat) (w : world) :
  normal_vector n w
  = (Return (draws standard_normal n (np_random w)).1,
     reseeded (draws standard_normal n (np_random w)).2 w).
Proof. apply replicateM_run. reflexivity. Qed.

Lemma normal_matrix_run (rows cols : nat) (w : world) :
  normal_matrix rows cols w
  = (Return (draws (draws standard_normal cols) rows (np_random w)).1,
     reseeded (draws (draws standard_normal cols) rows (np_random w)).2 w).
Proof. apply replicateM_run. intros w'. apply normal_vector_run. Qed.

Lemma length_draws {S A} (draw : S -> A * S) n s :
  length (draws draw n s).1 = n.
Proof.
  revert s. induction n as [|n IH]; intros s; [reflexivity|].
  simpl. now rewrite IH.
Qed.

Lemma zip_exact_total {A B C} (f : A -> B -> option C) (g : A -> B -> C)
    (l : list A) (k : list B) :
  Forall2 (λ a b, f a b = Some (g a b)) l k ->
  zip_exact f l k = Some (zip_with g l k).
Proof.
  intros HF. unfold zip_exact.
  rewrite decide_True by (eapply Forall2_length; eauto).
  apply mapM_Some. induction HF; constructor; simpl; auto.
Qed.

Lemma zip_exact_lengths {A B C} (f : A -> B -> option C)
    (g : A -> B -> C) (l : list A) (k : list B) :
  (∀ a b, f a b = Some (g a b)) -> length l = length k ->
  zip_exact f l k = Some (zip_with g l k).
Proof.
  intros Hf Hlen. apply zip_exact_total.
  apply Forall2_same_length_lookup_2; [exact Hlen|]. intros; apply Hf.
Qed.

Lemma mapM_fmap_total {A B C} (f : B -> option C) (g : A -> B)
    (h : A -> C) (l : list A) :
  (∀ x, f (g x) = Some (h x)) -> mapM f (g <$> l) = Some (h <$> l).
Proof.
  intros Hf. apply mapM_Some. induction l; constructor; auto.
Qed.

Lemma mapM_total {A B} (f : A -> option B) (g : A -> B) (l : list A) :
  (∀ x, f x = Some (g x)) -> mapM f l = Some (g <$> l).
Proof.
  intros Hf. apply mapM_Some. induction l; constructor; auto.
Qed.

End Draws.

Ltac solve_log :=
  repeat first
    [ eapply log_logged | eapply log_allocated
    | eapply log_stored | eapply log_reseeded ];
  apply log_start.

(** Steps that run by computation: the result of [m w] is a pair whose
    outcome is a constructor. *)
Ltac step :=
  lazymatch goal with
  | |- context [(?m ≫= ?k) ?w] =>
      lazymatch m with
      | (?m1 ≫= ?k1) => rewrite (bind_assoc m1 k1 k w)
      | _ =>
          first
            [ rewrite (bind_Return m k w _ _ eq_refl)
            | rewrite (bind_Raised m k w _ _ eq_refl)
            | rewrite (bind_Exited m k w _ _ eq_refl) ]
      end
  end.

Ltac simpl_world :=
  cbn [heap next_loc log np_random logged allocated stored reseeded] in *.

Ltac solve_lookup :=
  simpl_world;
  repeat first
    [ rewrite lookup_insert_eq
    | rewrite lookup_insert_ne by (simpl_world; lia) ];
  first [ reflexivity | eassumption ].

Ltac step_load :=
  lazymatch goal with
  | |- context [(load_frame ?l ≫= ?k) ?w] =>
      erewrite (bind_Return (load_frame l) k w);
      [| apply load_frame_run; solve_lookup ]
  | |- context [(load_float_frame ?l ≫= ?k) ?w] =>
      erewrite (bind_Return (load_float_frame l) k w);
      [| apply load_float_frame_run; solve_lookup ]
  | |- context [(load_bools ?l ≫= ?k) ?w] =>
      erewrite (bind_Return (load_bools l) k w);
      [| apply load_bools_run; solve_lookup ]
  | |- context [(load_array1 ?l ≫= ?k) ?w] =>
      erewrite (bind_Return (load_array1 l) k w);
      [| apply load_array1_run; solve_lookup ]
  | |- context [(load_array2 ?l ≫= ?k) ?w] =>
      erewrite (bind_Return (load_array2 l) k w);
      [| apply load_array2_run; solve_lookup ]
  | |- context [(load_array3 ?l ≫= ?k) ?w] =>
      erewrite (bind_Return (load_array3 l) k w);
      [| apply load_array3_run; solve_lookup ]
  | |- context [(load_alleles ?l ≫= ?k) ?w] =>
      erewrite (bind_Return (load_alleles l) k w);
      [| apply load_alleles_run; solve_lookup ]
  | |- context [(load ?l ≫= ?k) ?w] =>
      erewrite (bind_Return (load l) k w);
      [| apply load_run; solve_lookup ]
  end.

Ltac step_draw :=
  lazymatch goal with
  | |- context [(normal_vector ?n ≫= ?k) ?w] =>
      rewrite (bind_Return (normal_vector n) k w _ _ (normal_vector_run n w))
  | |- context [(normal_matrix ?r ?c ≫= ?k) ?w] =>
      rewrite (bind_Return (normal_matrix r c) k w _ _
                 (normal_matrix_run r c w))
  end.

Ltac run := repeat first [ step | step_load | step_draw ].

(** *** Invariants kept by the phases of [start]

    The rules are proved once, for any invariant [J] that survives
    logging an event of the kind [ok], a draw from the generator, the
    creation of an object (whose location is then [fresh]) and a write
    to a [fresh] location. *)

Section Rules.
Context `{NumpyRandom} `{Numerics}.
Variable I : invariant.
Abbreviation J := (inv I).
Abbreviation ok := (inv_ok I).
Abbreviation fresh := (inv_fresh I).
Abbreviation J_logged := (inv_logged I).
Abbreviation J_reseeded := (inv_reseeded I).
Abbreviation J_allocated := (inv_allocated I).
Abbreviation J_stored := (inv_stored I).
Abbreviation ok_info := (inv_ok_info I).
Abbreviation ok_error := (inv_ok_error I).
Abbreviation ok_stdout := (inv_ok_stdout I).

Lemma keeps_ret {A} (a : A) (Q : A -> Prop) : Q a -> keeps J (ret a) Q.
Proof. intros HQ w Hw. split; [exact Hw|]. intros a' [= <-]. exact HQ. Qed.

Lemma keeps_raise {A} e (Q : A -> Prop) : keeps J (raise e) Q.
Proof. intros w Hw. split; [exact Hw|]. intros a [=]. Qed.

Lemma keeps_exit {A} code (Q : A -> Prop) : keeps J (exit_ code) Q.
Proof. intros w Hw. split; [exact Hw|]. intros a [=]. Qed.

Lemma keeps_bind {A B} (m : M A) (k : A -> M B) Q Q' :
  keeps J m Q -> (∀ a, Q a -> keeps J (k a) Q') -> keeps J (m ≫= k) Q'.
Proof.
  intros Hm Hk w Hw. destruct (Hm w Hw) as [Hw1 HQ].
  unfold mbind, M_bind, bind. destruct (m w) as [[a|e|status] w1]; simpl in *.
  - apply (Hk a (HQ a eq_refl) w1 Hw1).
  - split; [exact Hw1|]. intros a [=].
  - split; [exact Hw1|]. intros a [=].
Qed.

Lemma keeps_weaken {A} (m : M A) (Q Q' : A -> Prop) :
  keeps J m Q -> (∀ a, Q a -> Q' a) -> keeps J m Q'.
Proof.
  intros Hm HQ w Hw. destruct (Hm w Hw) as [Hw1 Ha]. split; [exact Hw1|].
  intros a E. apply HQ, Ha, E.
Qed.

Lemma keeps_emit e : ok e -> keeps J (emit e) (λ _, True).
Proof. intros He w Hw. split; [apply J_logged; assumption | done]. Qed.

Lemma keeps_log_info t a :
  t ≠ "  Simulation {}"%string -> keeps J (log_info t a) (λ _, True).
Proof. intros Ht. apply keeps_emit, ok_info, Ht. Qed.

Lemma keeps_log_error t a : keeps J (log_error t a) (λ _, True).
Proof. apply keeps_emit, ok_error. Qed.

Lemma keeps_print what : keeps J (print what) (λ _, True).
Proof. apply keeps_emit, ok_stdout. Qed.

Lemma keeps_alloc o : keeps J (alloc o) fresh.
Proof.
  intros w Hw. destruct (J_allocated o w Hw) as [Hw1 Hf].
  split; [exact Hw1|]. intros a [= <-]. exact Hf.
Qed.

Lemma keeps_store l o : fresh l -> keeps J (store l o) (λ _, True).
Proof. intros Hl w Hw. split; [apply J_stored; assumption | done]. Qed.

Lemma keeps_load l : keeps J (load l) (λ _, True).
Proof.
  intros w Hw. unfold load. destruct (heap w !! l); split; done.
Qed.

Lemma keeps_or_raise {A} e (o : option A) : keeps J (or_raise e o) (λ _, True).
Proof. intros w Hw. destruct o; split; done. Qed.

Lemma keeps_or_raise_eq {A} e (o : option A) :
  keeps J (or_raise e o) (λ a, o = Some a).
Proof.
  intros w Hw. destruct o; (split; [exact Hw|]); intros a' [=]. by subst.
Qed.

Lemma keeps_load_bools l : keeps J (load_bools l) (λ _, True).
Proof.
  eapply keeps_bind; [apply keeps_load|]. intros [] _;
    first [apply keeps_ret; done | apply keeps_raise].
Qed.

Lemma keeps_load_array1 l : keeps J (load_array1 l) (λ _, True).
Proof.
  eapply keeps_bind; [apply keeps_load|]. intros [] _;
    first [apply keeps_ret; done | apply keeps_raise].
Qed.

Lemma keeps_load_array2 l : keeps J (load_array2 l) (λ _, True).
Proof.
  eapply keeps_bind; [apply keeps_load|]. intros [] _;
    first [apply keeps_ret; done | apply keeps_raise].
Qed.

Lemma keeps_load_array3 l : keeps J (load_array3 l) (λ _, True).
Proof.
  eapply keeps_bind; [apply keeps_load|]. intros [] _;
    first [apply keeps_ret; done | apply keeps_raise].
Qed.

Lemma keeps_load_frame l : keeps J (load_frame l) (λ _, True).
Proof.
  eapply keeps_bind; [apply keeps_load|]. intros [] _;
    first [apply keeps_ret; done | apply keeps_raise].
Qed.

Lemma keeps_load_float_frame l : keeps J (load_float_frame l) (λ _, True).
Proof.
  eapply keeps_bind; [apply keeps_load|]. intros [] _;
    first [apply keeps_ret; done | apply keeps_raise].
Qed.

Lemma keeps_load_alleles l : keeps J (load_alleles l) (λ _, True).
Proof.
  eapply keeps_bind; [apply keeps_load|]. intros [] _;
    first [apply keeps_ret; done | apply keeps_raise].
Qed.

Lemma keeps_subscript c : keeps J (subscript c) (λ _, True).
Proof. destruct c; [apply keeps_load_array2 | apply keeps_raise]. Qed.

Lemma keeps_when b m :
  keeps J m (λ _, True) -> keeps J (when b m) (λ _, True).
Proof. intros Hm. destruct b; [exact Hm | apply keeps_ret; done]. Qed.

Lemma keeps_for_ {A} (l : list A) body :
  (∀ a, keeps J (body a) (λ _, True)) -> keeps J (for_ l body) (λ _, True).
Proof.
  intros Hb. induction l as [|a l IH]; [apply keeps_ret; done|].
  simpl. eapply keeps_bind; [apply Hb|]. intros _ _. exact IH.
Qed.

Lemma keeps_mapM {A B} (f : A -> M B) (l : list A) :
  (∀ a, keeps J (f a) (λ _, True)) -> keeps J (mapM f l) (λ _, True).
Proof.
  intros Hf. induction l as [|a l IH]; [apply keeps_ret; done|].
  simpl. eapply keeps_bind; [apply Hf|]. intros b _.
  eapply keeps_bind; [apply IH|]. intros bs _. apply keeps_ret; done.
Qed.

Lemma keeps_np_random_normal : keeps J np_random_normal (λ _, True).
Proof. intros w Hw. split; [apply J_reseeded, Hw | done]. Qed.

Lemma keeps_replicateM {A} n (m : M A) :
  keeps J m (λ _, True) -> keeps J (replicateM n m) (λ _, True).
Proof.
  intros Hm. induction n as [|n IH]; [apply keeps_ret; done|].
  simpl. eapply keeps_bind; [apply Hm|]. intros a _.
  eapply keeps_bind; [apply IH|]. intros l _. apply keeps_ret; done.
Qed.

Lemma keeps_normal_vector n : keeps J (normal_vector n) (λ _, True).
Proof. apply keeps_replicateM, keeps_np_random_normal. Qed.

Lemma keeps_normal_matrix r c : keeps J (normal_matrix r c) (λ _, True).
Proof. apply keeps_replicateM, keeps_normal_vector. Qed.

Lemma keeps_np_random_choice n size :
  keeps J (np_random_choice n size) (λ _, True).
Proof.
  unfold np_random_choice. destruct (_ || _); [apply keeps_raise|].
  intros w Hw. split; [apply J_reseeded, Hw | done].
Qed.

Lemma keeps_ret_eq {A} (a : A) : keeps J (ret a) (λ a', a' = a).
Proof. apply keeps_ret. reflexivity. Qed.

End Rules.

Ltac keeps_phase := fail.

Ltac keeps_atom :=
  first
    [ keeps_phase
    | apply keeps_log_info; discriminate
    | apply keeps_log_error
    | apply keeps_print
    | apply keeps_alloc
    | apply keeps_store; assumption
    | apply keeps_load_bools
    | apply keeps_load_array1
    | apply keeps_load_array2
    | apply keeps_load_array3
    | apply keeps_load_frame
    | apply keeps_load_float_frame
    | apply keeps_load_alleles
    | apply keeps_load
    | apply keeps_subscript
    | apply keeps_or_raise
    | apply keeps_normal_vector
    | apply keeps_normal_matrix
    | apply keeps_np_random_choice
    | apply keeps_raise
    | apply keeps_exit
    | apply keeps_ret; solve [ exact I | assumption | auto ]
    | apply keeps_ret_eq ].

Ltac keeps_go :=
  lazymatch goal with
  | |- keeps _ (_ ≫= _) _ =>
      eapply keeps_bind; [ keeps_go | intros ? ?; keeps_go ]
  | |- keeps _ (when _ _) _ => apply keeps_when; keeps_go
  | |- keeps _ (for_ _ _) _ => apply keeps_for_; intros ?; keeps_go
  | |- keeps _ (if ?b then _ else _) _ => destruct b; keeps_go
  | |- keeps _ (match ?x with _ => _ end) _ => destruct x; keeps_go
  | |- _ =>
      first [ keeps_atom
            | eapply keeps_weaken; [ keeps_atom | intros; exact I ] ]
  end.

Section Phases.
Context `{NumpyRandom} `{Numerics}.
Variable I : invariant.
Abbreviation J := (inv I).
Abbreviation ok := (inv_ok I).
Abbreviation fresh := (inv_fresh I).

Lemma keeps_load_file {A} (inpath : option (list A)) nrows :
  keeps J (load_file inpath nrows) (λ _, True).
Proof. unfold load_file. keeps_go. Qed.

Lemma keeps_load_file_frame inpath nrows :
  keeps J (load_file_frame inpath nrows) (λ _, True).
Proof. unfold load_file_frame. keeps_go. Qed.

Lemma keeps_print_arguments : keeps J print_arguments (λ _, True).
Proof. unfold print_arguments. cbn [for_]. keeps_go. Qed.

Ltac keeps_phase ::=
  first [ apply keeps_load_file | apply keeps_load_file_frame
        | apply keeps_print_arguments ].

Lemma keeps_draw_individuals mask n k :
  fresh mask -> keeps J (draw_individuals mask n k) (λ _, True).
Proof. intros Hm. unfold draw_individuals. keeps_go. Qed.

Lemma keeps_select_individuals n k :
  keeps J (select_individuals n k) fresh.
Proof.
  unfold select_individuals.
  eapply keeps_bind; [keeps_go|]. intros _ _.
  eapply keeps_bind; [apply keeps_alloc|]. intros mask Hmask.
  eapply keeps_bind; [|intros _ _; apply keeps_ret; exact Hmask].
  apply keeps_when. eapply keeps_bind; [keeps_go|]. intros _ _.
  apply keeps_draw_individuals, Hmask.
Qed.

Lemma keeps_select_individuals_too_many n k :
  Z.of_nat n < k -> keeps J (select_individuals n k) (λ _, False).
Proof.
  intros Hk. unfold select_individuals.
  eapply keeps_bind; [keeps_go|]. intros _ _.
  eapply keeps_bind; [apply keeps_alloc|]. intros mask Hmask.
  rewrite bool_decide_true by lia. unfold when.
  destruct (Z.ltb_spec (Z.of_nat n) k); [|lia].
  eapply keeps_bind with (Q := λ _, False); [|intros a Ha; destruct Ha].
  eapply keeps_bind with (Q := λ _, False); [|intros a Ha; destruct Ha].
  eapply keeps_bind; [keeps_go|]. intros _ _. apply keeps_exit.
Qed.

Lemma keeps_generate_genotype_beta self eqtl_df n :
  keeps J (generate_genotype_beta self eqtl_df n) fresh.
Proof.
  unfold generate_genotype_beta.
  eapply keeps_bind; [keeps_go|]. intros geno_beta_a Hg.
  destruct (use_real_genotype_beta self); [|apply keeps_ret, Hg].
  eapply keeps_bind; [keeps_go|]. intros _ _.
  eapply keeps_bind; [keeps_go|]. intros alleles_df Ha.
  eapply keeps_bind; [keeps_go|]. intros rows _.
  eapply keeps_bind; [keeps_go|]. intros _ _.
  eapply keeps_bind; [keeps_go|]. intros rows' _.
  eapply keeps_bind; [keeps_go|]. intros alt_aa _.
  eapply keeps_bind; [keeps_go|]. intros flip _.
  eapply keeps_bind; [keeps_go|]. intros l Hl.
  eapply keeps_bind; [keeps_go|]. intros a _.
  eapply keeps_bind; [keeps_go|]. intros a' _.
  eapply keeps_bind; [keeps_go|]. intros _ _.
  apply keeps_ret, Hl.
Qed.

(** The model matrix is a new object, and the covariate matrix in use
    is the one passed in unless the covariates are resampled. *)
Lemma keeps_construct_model_matrix self geno_df ne ni mask cov :
  keeps J (construct_model_matrix self geno_df ne ni mask cov)
    (λ r, fresh r.1.1.1 ∧
          (resample_covariates self = false -> r.1.2 = cov) ∧
          (n_covariates self = 0%nat -> r.1.2 = cov)).
Proof.
  unfold construct_model_matrix, fill_covariates.
  eapply keeps_bind; [keeps_go|]. intros _ _.
  eapply keeps_bind; [apply keeps_alloc|]. intros model_m Hm.
  eapply keeps_bind; [keeps_go|]. intros t0 _.
  eapply keeps_bind; [keeps_go|]. intros _ _.
  eapply keeps_bind; [keeps_go|]. intros mask_ _.
  eapply keeps_bind; [keeps_go|]. intros geno_slice _.
  eapply keeps_bind; [keeps_go|]. intros geno_copy _.
  eapply keeps_bind; [keeps_go|]. intros genotypes _.
  eapply keeps_bind; [keeps_go|]. intros t1 _.
  eapply keeps_bind; [keeps_go|]. intros t2 _.
  eapply keeps_bind; [keeps_go|]. intros _ _.
  eapply keeps_bind; [keeps_go|]. intros df _.
  eapply keeps_bind with
    (Q := λ c, (resample_covariates self = false -> c = cov) ∧
               (n_covariates self = 0%nat -> c = cov)).
  - destruct (Nat.ltb_spec 0 (n_covariates self));
      [|apply keeps_ret; split; reflexivity].
    eapply keeps_bind with
      (Q := λ c, resample_covariates self = false -> c = cov).
    + destruct (resample_covariates self).
      * eapply keeps_bind; [keeps_go|]. intros _ _.
        eapply keeps_bind; [keeps_go|]. intros c _.
        eapply keeps_bind; [keeps_go|]. intros l _.
        apply keeps_ret. discriminate.
      * apply keeps_ret. reflexivity.
    + intros cov' Hc.
      eapply keeps_bind; [keeps_go|]. intros c _.
      eapply keeps_bind; [keeps_go|]. intros t3 _.
      eapply keeps_bind; [keeps_go|]. intros t4 _.
      eapply keeps_bind; [keeps_go|]. intros _ _.
      eapply keeps_bind; [keeps_go|]. intros _ _.
      apply keeps_ret. split; [exact Hc | lia].
  - intros cov' Hc.
    eapply keeps_bind; [keeps_go|]. intros noise _.
    eapply keeps_bind; [keeps_go|]. intros t5 _.
    eapply keeps_bind; [keeps_go|]. intros t6 _.
    eapply keeps_bind; [keeps_go|]. intros _ _.
    eapply keeps_bind; [keeps_go|]. intros _ _.
    eapply keeps_bind; [keeps_go|]. intros t7 _.
    eapply keeps_bind; [keeps_go|]. intros example _.
    eapply keeps_bind; [keeps_go|]. intros _ _.
    eapply keeps_bind; [keeps_go|]. intros _ _.
    apply keeps_ret. simpl. tauto.
Qed.

Lemma keeps_generate_model_betas self ne intercept geno_beta_a :
  keeps J (generate_model_betas self ne intercept geno_beta_a) fresh.
Proof.
  unfold generate_model_betas.
  eapply keeps_bind; [keeps_go|]. intros _ _.
  eapply keeps_bind; [apply keeps_alloc|]. intros beta_m Hb.
  eapply keeps_bind; [keeps_go|]. intros b0 _.
  eapply keeps_bind; [keeps_go|]. intros b1 _.
  eapply keeps_bind; [keeps_go|]. intros _ _.
  eapply keeps_bind; [keeps_go|]. intros g _.
  eapply keeps_bind; [keeps_go|]. intros b2 _.
  eapply keeps_bind; [keeps_go|]. intros b3 _.
  eapply keeps_bind; [keeps_go|]. intros _ _.
  eapply keeps_bind; [keeps_go|]. intros _ _.
  eapply keeps_bind; [keeps_go|]. intros _ _.
  eapply keeps_bind; [keeps_go|]. intros b4 _.
  eapply keeps_bind; [keeps_go|]. intros _ _.
  apply keeps_ret, Hb.
Qed.

Lemma keeps_calculate_expression model_m beta_m :
  keeps J (calculate_expression model_m beta_m) (λ _, True).
Proof. unfold calculate_expression. keeps_go. Qed.

Lemma keeps_simulate self geno_df ne ni intercept geno_beta_a mask cov :
  keeps J (simulate self geno_df ne ni intercept geno_beta_a mask cov)
    (λ sim, fresh (model_m sim) ∧ fresh (beta_m sim) ∧
            (resample_covariates self = false -> cov_m_used sim = cov) ∧
            (n_covariates self = 0%nat -> cov_m_used sim = cov)).
Proof.
  unfold simulate.
  eapply keeps_bind; [apply keeps_construct_model_matrix|].
  intros built (Hm & Hr & Hn).
  eapply keeps_bind; [apply keeps_generate_model_betas|]. intros beta_m Hb.
  eapply keeps_bind; [apply keeps_calculate_expression|]. intros expr_m _.
  apply keeps_ret. simpl. tauto.
Qed.

Lemma keeps_corrcoef m1 m2 : keeps J (corrcoef m1 m2) (λ _, True).
Proof.
  unfold corrcoef.
  eapply keeps_bind; [|intros r _; keeps_go].
  apply keeps_mapM. intros i. apply keeps_mapM. intros j. keeps_go.
Qed.

Lemma keeps_merge_coef_and_p coef_df pvalue_df :
  fresh coef_df -> fresh pvalue_df ->
  keeps J (merge_coef_and_p coef_df pvalue_df) fresh.
Proof.
  intros Hc Hp. unfold merge_coef_and_p.
  eapply keeps_bind; [keeps_go|]. intros coef _.
  eapply keeps_bind; [keeps_go|]. intros _ _.
  eapply keeps_bind; [keeps_go|]. intros pvalue _.
  eapply keeps_bind; [keeps_go|]. intros _ _.
  eapply keeps_bind; [apply keeps_alloc|]. intros corr Hcorr.
  eapply keeps_bind; [keeps_go|]. intros _ _.
  apply keeps_ret, Hcorr.
Qed.

Ltac keeps_phase ::=
  first [ apply keeps_load_file | apply keeps_load_file_frame
        | apply keeps_print_arguments
        | apply keeps_corrcoef | apply keeps_calculate_expression ].

(** Without covariates there is no covariate matrix to subscript: the
    correlations of the random vectors raise before anything is
    written. *)
Lemma keeps_save_correlations_None self id vectors names file :
  keeps J (save_correlations self id None vectors names file) (λ _, False).
Proof.
  unfold save_correlations.
  eapply keeps_bind with (Q := λ _, False); [apply keeps_raise|].
  intros a [].
Qed.

Lemma keeps_generate_starting_vectors_None self id ni expr names :
  n_hidden_covariates self = 0%nat ->
  keeps J (generate_starting_vectors self id ni expr names None)
        (λ _, False).
Proof.
  intros Hh. unfold generate_starting_vectors. rewrite Hh.
  eapply keeps_bind; [keeps_go|]. intros _ _.
  eapply keeps_bind; [keeps_go|]. intros components _.
  eapply keeps_bind; [apply keeps_alloc|]. intros expr_pcs_df Hl.
  eapply keeps_bind; [keeps_go|]. intros df _.
  eapply keeps_bind; [keeps_go|]. intros _ _.
  eapply keeps_bind; [keeps_go|]. intros df' _.
  eapply keeps_bind; [keeps_go|]. intros _ _.
  eapply keeps_bind; [keeps_go|]. intros _ _.
  eapply keeps_bind; [keeps_go|]. intros df'' _.
  eapply keeps_bind; [apply keeps_when; keeps_go|]. intros _ _.
  eapply keeps_bind; [keeps_go|]. intros _ _.
  eapply keeps_bind; [keeps_go|]. intros random_start_m _.
  eapply keeps_bind with (Q := λ _, False);
    [apply keeps_save_correlations_None|].
  intros a [].
Qed.

Lemma keeps_individuals_mask self n k (vars : locals) :
  keeps J
    (if bool_decide (k ≠ Z.of_nat n) && resample_individuals self
     then
       log_info "\tResampling individuals" [];;
       mask ← alloc (BoolArray (replicate n true));
       draw_individuals mask n k;;
       ret mask
     else ret (individuals_mask vars))
    (λ _, True).
Proof.
  destruct (_ && _); [|apply keeps_ret; done].
  eapply keeps_bind; [keeps_go|]. intros _ _.
  eapply keeps_bind; [apply keeps_alloc|]. intros mask Hmask.
  eapply keeps_bind; [apply keeps_draw_individuals, Hmask|]. intros _ _.
  apply keeps_ret; done.
Qed.

Section Simulation.
Hypothesis ok_simulation :
  ∀ a, ok (Info {| template := "  Simulation {}"; args := a |}).

Lemma keeps_experiment_no_covariates self geno_df n k ne eqtl_names
    gene_names intercept geno_beta_a vars id :
  n_covariates self = 0%nat -> cov_m vars = None ->
  keeps J (experiment self geno_df n k ne eqtl_names gene_names
                      intercept geno_beta_a vars id)
        (λ _, False).
Proof.
  intros Hn Hc. unfold experiment.
  eapply keeps_bind; [apply keeps_emit, ok_simulation|]. intros _ _.
  eapply keeps_bind; [apply keeps_individuals_mask|]. intros mask _.
  eapply keeps_bind; [apply keeps_simulate|]. intros sim (_ & _ & _ & Hs).
  rewrite (Hs Hn), Hc.
  eapply keeps_bind with (Q := λ _, False).
  - apply keeps_generate_starting_vectors_None.
    unfold n_covariates in Hn. lia.
  - intros a [].
Qed.

Lemma keeps_experiments_no_covariates self geno_df n k ne eqtl_names
    gene_names intercept geno_beta_a vars ids :
  n_covariates self = 0%nat -> cov_m vars = None ->
  keeps J (experiments
             (experiment self geno_df n k ne eqtl_names gene_names
                         intercept geno_beta_a) ids vars)
        (λ _, ids = []).
Proof.
  intros Hn Hc. destruct ids as [|id ids]; [apply keeps_ret; done|].
  simpl. eapply keeps_bind with (Q := λ _, False).
  - apply keeps_experiment_no_covariates; assumption.
  - intros a [].
Qed.

(** Without covariates, nothing of the kind is logged, and the run
    goes on after the loop only when no experiment was asked for. *)
Lemma keeps_generate_no_covariates self geno_df eqtl_df ne ni :
  n_covariates self = 0%nat ->
  keeps J (generate self geno_df eqtl_df ne ni)
        (λ _, n_experiments self <= 0).
Proof.
  intros Hn. unfold generate.
  eapply keeps_bind; [keeps_go|]. intros intercept _.
  eapply keeps_bind; [apply keeps_generate_genotype_beta|].
  intros geno_beta_a _.
  eapply keeps_bind; [apply keeps_select_individuals|]. intros mask Hmask.
  rewrite Hn. cbn [Nat.ltb Nat.leb].
  eapply keeps_bind; [apply keeps_ret_eq|]. intros cov ->.
  eapply keeps_bind; [keeps_go|]. intros _ _.
  eapply keeps_bind.
  - apply keeps_experiments_no_covariates; [exact Hn | reflexivity].
  - intros vars Hids. simpl in Hids.
    eapply keeps_bind; [keeps_go|]. intros _ _.
    eapply keeps_weaken; [keeps_go|]. intros _ _.
    destruct (Z.to_nat (n_experiments self)) eqn:E; [lia | discriminate].
Qed.

(** With every event admitted, the whole loop keeps the invariant. *)
Hypothesis ok_saved : ∀ id file o, ok (Saved id file o).

Lemma keeps_save_file id file o : keeps J (save_file id file o) (λ _, True).
Proof. apply keeps_emit, ok_saved. Qed.

Lemma keeps_save_correlations self id cov vectors names file :
  keeps J (save_correlations self id cov vectors names file) (λ _, True).
Proof.
  unfold save_correlations.
  eapply keeps_bind; [keeps_go|]. intros c _.
  eapply keeps_bind; [keeps_go|]. intros rp _.
  eapply keeps_bind; [keeps_go|]. intros coef_df Hc.
  eapply keeps_bind; [keeps_go|]. intros pvalue_df Hp.
  eapply keeps_bind; [apply keeps_merge_coef_and_p; assumption|].
  intros corr_out_df _.
  eapply keeps_bind; [keeps_go|]. intros _ _.
  eapply keeps_bind; [keeps_go|]. intros df _.
  apply keeps_save_file.
Qed.

Lemma keeps_generate_starting_vectors self id ni expr names cov :
  keeps J (generate_starting_vectors self id ni expr names cov) (λ _, True).
Proof.
  unfold generate_starting_vectors.
  eapply keeps_bind; [keeps_go|]. intros _ _.
  eapply keeps_bind; [keeps_go|]. intros components _.
  eapply keeps_bind; [apply keeps_alloc|]. intros expr_pcs_df Hl.
  eapply keeps_bind; [keeps_go|]. intros df _.
  eapply keeps_bind; [keeps_go|]. intros _ _.
  eapply keeps_bind; [keeps_go|]. intros df' _.
  eapply keeps_bind; [keeps_go|]. intros _ _.
  eapply keeps_bind; [keeps_go|]. intros _ _.
  eapply keeps_bind; [keeps_go|]. intros df'' _.
  eapply keeps_bind.
  { apply keeps_when. eapply keeps_bind; [keeps_go|]. intros _ _.
    apply keeps_save_correlations. }
  intros _ _.
  eapply keeps_bind; [keeps_go|]. intros _ _.
  eapply keeps_bind; [keeps_go|]. intros random_start_m _.
  eapply keeps_bind; [apply keeps_save_correlations|]. intros _ _.
  apply keeps_ret; done.
Qed.

Ltac keeps_phase ::=
  first [ apply keeps_load_file | apply keeps_load_file_frame
        | apply keeps_print_arguments
        | apply keeps_corrcoef | apply keeps_calculate_expression
        | apply keeps_save_file ].

Lemma keeps_save_data self id eqtl_names gene_names names cov beta_m
    expr expr_pcs_df random_start_m :
  keeps J (save_data self id eqtl_names gene_names names cov beta_m
                     expr expr_pcs_df random_start_m)
        (λ _, True).
Proof. unfold save_data. keeps_go. Qed.

Lemma keeps_experiment self geno_df n k ne eqtl_names gene_names
    intercept geno_beta_a vars id :
  keeps J (experiment self geno_df n k ne eqtl_names gene_names
                      intercept geno_beta_a vars id)
        (λ vars', resample_covariates self = false ->
                  cov_m vars' = cov_m vars).
Proof.
  unfold experiment.
  eapply keeps_bind; [apply keeps_emit, ok_simulation|]. intros _ _.
  eapply keeps_bind; [apply keeps_individuals_mask|]. intros mask _.
  eapply keeps_bind; [apply keeps_simulate|]. intros sim (_ & _ & Hs & _).
  eapply keeps_bind; [apply keeps_generate_starting_vectors|].
  intros starts _.
  eapply keeps_bind; [apply keeps_save_data|]. intros _ _.
  apply keeps_ret. exact Hs.
Qed.

Lemma keeps_experiments self geno_df n k ne eqtl_names gene_names
    intercept geno_beta_a ids vars :
  keeps J (experiments
             (experiment self geno_df n k ne eqtl_names gene_names
                         intercept geno_beta_a) ids vars)
        (λ vars', resample_covariates self = false ->
                  cov_m vars' = cov_m vars).
Proof.
  revert vars. induction ids as [|id ids IH]; intros vars.
  - apply keeps_ret. reflexivity.
  - simpl. eapply keeps_bind; [apply keeps_experiment|]. intros vars1 H1.
    eapply keeps_weaken; [apply IH|]. intros vars2 H2 Hr.
    rewrite (H2 Hr). exact (H1 Hr).
Qed.

Lemma keeps_generate self geno_df eqtl_df ne ni :
  keeps J (generate self geno_df eqtl_df ne ni) (λ _, True).
Proof.
  unfold generate.
  eapply keeps_bind; [keeps_go|]. intros intercept _.
  eapply keeps_bind; [apply keeps_generate_genotype_beta|].
  intros geno_beta_a _.
  eapply keeps_bind; [apply keeps_select_individuals|]. intros mask Hmask.
  eapply keeps_bind; [keeps_go|]. intros cov _.
  eapply keeps_bind; [keeps_go|]. intros _ _.
  eapply keeps_bind; [apply keeps_experiments|]. intros vars _.
  keeps_go.
Qed.

End Simulation.

(** Whatever a run keeps from the check of the inputs on, the whole
    of [start] keeps. *)
Lemma keeps_start self (Q : unit -> Prop) :
  (∀ geno_df eqtl_df ne ni,
     keeps J (generate self geno_df eqtl_df ne ni) Q) ->
  keeps J (start self) Q.
Proof.
  intros Hg. unfold start.
  eapply keeps_bind; [keeps_go|]. intros _ _.
  eapply keeps_bind; [keeps_go|]. intros _ _.
  eapply keeps_bind; [keeps_go|]. intros _ _.
  eapply keeps_bind; [keeps_go|]. intros eqtl_df _.
  eapply keeps_bind; [keeps_go|]. intros _ _.
  eapply keeps_bind; [keeps_go|]. intros geno_df _.
  eapply keeps_bind; [keeps_go|]. intros _ _.
  eapply keeps_bind; [keeps_go|]. intros df _.
  eapply keeps_bind; [keeps_go|]. intros _ _.
  eapply keeps_bind; [keeps_go|]. intros _ _.
  eapply keeps_bind; [keeps_go|]. intros _ _.
  apply Hg.
Qed.

(** A request for more individuals than there are ends the run in
    the selection. *)
Lemma keeps_generate_too_many self geno_df eqtl_df ne ni :
  Z.of_nat ni < requested_individuals self ni ->
  keeps J (generate self geno_df eqtl_df ne ni) (λ _, False).
Proof.
  intros Hk. unfold generate.
  eapply keeps_bind; [keeps_go|]. intros intercept _.
  eapply keeps_bind; [apply keeps_generate_genotype_beta|].
  intros geno_beta_a _.
  eapply keeps_bind with (Q := λ _, False).
  - apply keeps_select_individuals_too_many, Hk.
  - intros a [].
Qed.

End Phases.

Ltac keeps_phase ::=
  first [ apply keeps_load_file | apply keeps_load_file_frame
        | apply keeps_print_arguments
        | apply keeps_corrcoef | apply keeps_calculate_expression ].


(** *** Runs without effects *)

Section Pure.
Context `{NumpyRandom} `{Numerics}.

Lemma pure_ret {A} (a : A) : pure (ret a).
Proof. exists (Return a). reflexivity. Qed.

Lemma pure_or_raise {A} e (o : option A) : pure (or_raise e o).
Proof. destruct o; [eexists (Return _) | eexists (Raised _)]; reflexivity. Qed.

Lemma pure_bind {A B} (m : M A) (k : A -> M B) :
  pure m -> (∀ a, pure (k a)) -> pure (m ≫= k).
Proof.
  intros [r Hm] Hk. destruct r as [a|e|status].
  - destruct (Hk a) as [r Ha]. exists r. intros w.
    rewrite (bind_Return _ _ _ _ _ (Hm w)). apply Ha.
  - exists (Raised e). intros w. apply bind_Raised, Hm.
  - exists (Exited status). intros w. apply bind_Exited, Hm.
Qed.

Lemma pure_mapM {A B} (f : A -> M B) (l : list A) :
  (∀ a, pure (f a)) -> pure (mapM f l).
Proof.
  intros Hf. induction l as [|a l IH]; [apply pure_ret|].
  simpl. apply pure_bind; [apply Hf|]. intros b.
  apply pure_bind; [apply IH|]. intros bs. apply pure_ret.
Qed.

Lemma pure_corrcoef (m1 m2 : matrix) : pure (corrcoef m1 m2).
Proof.
  unfold corrcoef. apply pure_bind.
  - apply pure_mapM. intros i. apply pure_mapM. intros j.
    apply pure_bind; [apply pure_or_raise|]. intros products. apply pure_ret.
  - intros r. apply pure_bind; [apply pure_or_raise|]. intros p.
    apply pure_ret.
Qed.

(** C5: whatever the state of the generator, the objects and the log,
    [corrcoef] ends the same way on the same matrices, with the same
    coefficients and p-values when it returns, and it leaves the
    generator, the objects and the log as they were. *)
Theorem corrcoef_deterministic (m1 m2 : matrix) (w w' : world) :
  (corrcoef m1 m2 w).1 = (corrcoef m1 m2 w').1 ∧
  (corrcoef m1 m2 w).2 = w.
Proof.
  destruct (pure_corrcoef m1 m2) as [r Hr].
  rewrite !Hr. split; reflexivity.
Qed.

End Pure.

(** *** Arrays with a shape *)

Section Shapes.
Context {A B C : Type}.

Lemma shaped_entry n m (P : A -> Prop) (x : list (list A)) i j a :
  shaped n m P x -> entry x i j = Some a -> P a ∧ (i < n)%nat ∧ (j < m)%nat.
Proof.
  intros [Hn Hx] E. unfold entry in E.
  destruct (x !! i) as [row|] eqn:Hi; [|discriminate]. simpl in E.
  destruct (Forall_lookup_1 _ _ _ _ Hx Hi) as [Hm Hrow].
  split; [exact (Forall_lookup_1 _ _ _ _ Hrow E)|].
  apply lookup_lt_Some in Hi, E. lia.
Qed.

Lemma shaped_is_Some n m (P : A -> Prop) (x : list (list A)) i j :
  shaped n m P x -> (i < n)%nat -> (j < m)%nat -> is_Some (entry x i j).
Proof.
  intros [Hn Hx] Hi Hj. unfold entry.
  destruct (lookup_lt_is_Some_2 x i) as [row Hrow]; [lia|].
  rewrite Hrow. simpl. apply lookup_lt_is_Some_2.
  destruct (Forall_lookup_1 _ _ _ _ Hx Hrow) as [Hm _]. lia.
Qed.

Lemma shaped_weaken n m (P Q : A -> Prop) (x : list (list A)) :
  (∀ a, P a -> Q a) -> shaped n m P x -> shaped n m Q x.
Proof.
  intros HPQ [Hn Hx]. split; [exact Hn|].
  eapply Forall_impl; [exact Hx|]. intros row [Hm Hrow].
  split; [exact Hm|]. eapply Forall_impl; eauto.
Qed.

Lemma shaped_fmap n m (P : A -> Prop) (Q : B -> Prop) (f : A -> B)
    (x : list (list A)) :
  (∀ a, P a -> Q (f a)) -> shaped n m P x ->
  shaped n m Q ((λ row : list A, f <$> row) <$> x).
Proof.
  intros Hf [Hn Hx]. split; [now rewrite length_fmap|].
  apply Forall_fmap. eapply Forall_impl; [exact Hx|].
  intros row [Hm Hrow]. simpl. split; [now rewrite length_fmap|].
  apply Forall_fmap. eapply Forall_impl; eauto.
Qed.

Lemma entry_fmap (f : A -> B) (x : list (list A)) i j :
  entry ((λ row : list A, f <$> row) <$> x) i j = f <$> entry x i j.
Proof.
  unfold entry. rewrite list_lookup_fmap.
  destruct (x !! i) as [row|]; [|reflexivity]. simpl.
  apply list_lookup_fmap.
Qed.

Lemma shaped_zip_with n m (P : A -> Prop) (Q : B -> Prop) (R : C -> Prop)
    (f : A -> B -> C) (x : list (list A)) (y : list (list B)) :
  (∀ a b, P a -> Q b -> R (f a b)) ->
  shaped n m P x -> shaped n m Q y ->
  shaped n m R (zip_with (zip_with f) x y).
Proof.
  intros Hf [Hn Hx] [Hn' Hy]. split; [rewrite length_zip_with; lia|].
  apply Forall_lookup_2. intros i row Hrow.
  apply lookup_zip_with_Some in Hrow as (r1 & r2 & -> & H1 & H2).
  destruct (Forall_lookup_1 _ _ _ _ Hx H1) as [Hm1 Hr1].
  destruct (Forall_lookup_1 _ _ _ _ Hy H2) as [Hm2 Hr2].
  split; [rewrite length_zip_with; lia|].
  apply Forall_lookup_2. intros j c Hc.
  apply lookup_zip_with_Some in Hc as (a & b & -> & Ha & Hb).
  apply Hf; eapply Forall_lookup_1; eauto.
Qed.

Lemma entry_zip_with (f : A -> B -> C) (x : list (list A))
    (y : list (list B)) i j :
  entry (zip_with (zip_with f) x y) i j
  = a ← entry x i j; b ← entry y i j; Some (f a b).
Proof.
  unfold entry. rewrite lookup_zip_with.
  destruct (x !! i) as [r1|]; [|reflexivity]. simpl.
  destruct (y !! i) as [r2|]; simpl.
  - apply lookup_zip_with.
  - destruct (r1 !! j); reflexivity.
Qed.

(** An assignment between arrays of one shape goes through. *)
Lemma zip_exact_shaped n m (P : A -> Prop) (Q : B -> Prop)
    (f : A -> B -> option C) (g : A -> B -> C)
    (x : list (list A)) (y : list (list B)) :
  (∀ a b, P a -> Q b -> f a b = Some (g a b)) ->
  shaped n m P x -> shaped n m Q y ->
  zip_exact (zip_exact f) x y = Some (zip_with (zip_with g) x y).
Proof.
  intros Hf [Hn Hx] [Hn' Hy]. apply zip_exact_total.
  apply Forall2_same_length_lookup_2; [lia|]. intros i r1 r2 H1 H2.
  destruct (Forall_lookup_1 _ _ _ _ Hx H1) as [Hm1 Hr1].
  destruct (Forall_lookup_1 _ _ _ _ Hy H2) as [Hm2 Hr2].
  apply zip_exact_total.
  apply Forall2_same_length_lookup_2; [lia|]. intros j a b Ha Hb.
  apply Hf; eapply Forall_lookup_1; eauto.
Qed.

Lemma shaped_tabulate n m (P : A -> Prop) (f : nat -> nat -> A) :
  (∀ i j, P (f i j)) ->
  shaped n m P ((λ i, (λ j, f i j) <$> seq 0 m) <$> seq 0 n).
Proof.
  intros Hf. split; [now rewrite length_fmap, length_seq|].
  apply Forall_fmap, Forall_forall. intros i _. simpl.
  split; [now rewrite length_fmap, length_seq|].
  apply Forall_fmap, Forall_forall. intros j _. apply Hf.
Qed.

Lemma shaped_replicate n m (P : A -> Prop) (row : list A) :
  length row = m -> Forall P row -> shaped n m P (replicate n row).
Proof.
  intros Hm Hrow. split; [apply length_replicate|].
  apply Forall_replicate. split; assumption.
Qed.

Lemma entry_replicate n (row : list A) i j :
  (i < n)%nat -> entry (replicate n row) i j = row !! j.
Proof.
  intros Hi. unfold entry. now rewrite lookup_replicate_2.
Qed.

End Shapes.

Lemma shaped_draws `{NumpyRandom} rows cols s :
  shaped rows cols (λ _, True)
         (draws (draws standard_normal cols) rows s).1.
Proof.
  split; [apply length_draws|].
  revert s. induction rows as [|rows IH]; intros s; [constructor|].
  simpl. constructor; [|apply IH].
  split; [apply length_draws|]. apply Forall_true. done.
Qed.

Lemma shaped_mask_select {A} (mask : list bool) (x : list (list A)) n m :
  length x = n -> Forall (λ row, length row = length mask) x ->
  n_selected mask = m ->
  shaped n m (λ _, True) (mask_select mask <$> x).
Proof.
  intros Hn Hx Hm. split; [now rewrite length_fmap|].
  apply Forall_fmap. eapply Forall_impl; [exact Hx|]. intros row Hrow.
  simpl. split; [|apply Forall_true; done].
  rewrite length_mask_select by congruence. exact Hm.
Qed.

(** *** The model matrix, the betas and the expression *)

Section Terms.
Context `{NumpyRandom} `{Numerics}.

Lemma set_term_run c (x : matrix) (t : tensor) n m k :
  shaped n m (λ T : vector, length T = k) t ->
  shaped n m (λ _, True) x ->
  set_term c x t
  = Some (zip_with (zip_with (λ (T : vector) v, <[c:=v]> T)) t x) ∧
  shaped n m (λ T : vector, length T = k)
         (zip_with (zip_with (λ (T : vector) v, <[c:=v]> T)) t x).
Proof.
  intros Ht Hx. split.
  - unfold set_term. eapply zip_exact_shaped; [|exact Ht|exact Hx].
    reflexivity.
  - eapply shaped_zip_with; [|exact Ht|exact Hx].
    intros T v HT _. simpl. now rewrite length_insert.
Qed.

Lemma set_terms_run a b (x t : tensor) n m k :
  (a <= b <= k)%nat ->
  shaped n m (λ T : vector, length T = k) t ->
  shaped n m (λ vs : vector, length vs = (b - a)%nat) x ->
  set_terms a b x t
  = Some (zip_with (zip_with (λ T vs : vector, take a T ++ vs ++ drop b T))
            t x) ∧
  shaped n m (λ T : vector, length T = k)
         (zip_with (zip_with (λ T vs : vector, take a T ++ vs ++ drop b T))
            t x).
Proof.
  intros Hab Ht Hx. split.
  - unfold set_terms. eapply zip_exact_shaped; [|exact Ht|exact Hx].
    intros T vs HT Hvs. simpl in *.
    rewrite decide_True; [reflexivity|].
    rewrite length_take, length_drop. lia.
  - eapply shaped_zip_with; [|exact Ht|exact Hx].
    intros T vs HT Hvs. simpl in *.
    rewrite !length_app, length_take, length_drop. lia.
Qed.

Lemma fill_covariates_run (self : main) (ne ni : nat) (model_m : loc)
    (cov : option loc) (c : loc) (C : matrix) (t : tensor) (w : world) :
  (model_m < next_loc w)%nat ->
  heap w !! model_m = Some (Array3 t) ->
  shaped ne ni (λ T : vector, length T = n_terms self) t ->
  ((0 < n_covariates self)%nat -> resample_covariates self = false ->
   cov = Some c ∧ (c < next_loc w)%nat ∧ c ≠ model_m ∧
   heap w !! c = Some (Array2 C) ∧
   length C = ni ∧
   Forall (λ row : vector, length row = n_covariates self) C) ->
  ∃ t' covu Cu w',
    fill_covariates self ne ni model_m cov w = (Return covu, w') ∧
    heap w' !! model_m = Some (Array3 t') ∧
    (next_loc w <= next_loc w')%nat ∧
    (∀ l, (l < next_loc w)%nat -> l ≠ model_m ->
          heap w' !! l = heap w !! l) ∧
    shaped ne ni (λ T : vector, length T = n_terms self) t' ∧
    length Cu = ni ∧
    Forall (λ row : vector, length row = n_covariates self) Cu ∧
    ((0 < n_covariates self)%nat ->
     ∃ c', covu = Some c' ∧ (c' < next_loc w')%nat ∧
           heap w' !! c' = Some (Array2 Cu)) ∧
    (resample_covariates self = false ->
     covu = cov ∧ ((0 < n_covariates self)%nat -> Cu = C)) ∧
    ∀ i j x g rest,
      entry t i j = Some (x :: g :: rest) ->
      ∃ covs,
        Cu !! j = Some covs ∧
        entry t' i j
        = Some (x :: g :: covs
                ++ (if exclude_covariate_interactions self then []
                    else (λ v, v * g)%Q <$> covs)
                ++ drop (n_covariates self + n_interaction_covariates self)
                        rest).
Proof.
  intros Hm Ht Hshape Hcov. unfold fill_covariates.
  destruct (Nat.ltb_spec 0 (n_covariates self)) as [Hn|Hn].
  2: { exists t, cov, (replicate ni []), w.
       assert (n_covariates self = 0%nat) as E0 by lia.
       assert (n_interaction_covariates self = 0%nat) as E1.
       { unfold n_interaction_covariates. rewrite E0.
         now destruct (exclude_covariate_interactions self). }
       rewrite E0, E1.
       split; [reflexivity|]. split; [exact Ht|]. split; [lia|].
       split; [reflexivity|]. split; [exact Hshape|].
       split; [apply length_replicate|].
       split; [now apply Forall_replicate|].
       split; [lia|]. split; [split; [reflexivity|lia]|].
       intros i j x g rest E. exists [].
       destruct (shaped_entry _ _ _ _ _ _ _ Hshape E) as (_ & _ & Hj).
       split; [now apply lookup_replicate_2|].
       destruct (exclude_covariate_interactions self); exact E. }
  assert (Hnt : n_terms self
               = (2 + n_covariates self + n_interaction_covariates self + 1)%nat)
    by reflexivity.
  lazymatch goal with
  | |- context [(?m ≫= ?k) w] => set (tail := k)
  end.
  assert (Htail : ∀ c' Cu w1,
             heap w1 !! model_m = Some (Array3 t) ->
             heap w1 !! c' = Some (Array2 Cu) ->
             c' ≠ model_m ->
             length Cu = ni ->
             Forall (λ row : vector, length row = n_covariates self) Cu ->
             ∃ t' w',
               tail (Some c') w1 = (Return (Some c'), w') ∧
               heap w' = <[model_m := Array3 t']> (heap w1) ∧
               next_loc w' = next_loc w1 ∧
               shaped ne ni (λ T : vector, length T = n_terms self) t' ∧
               ∀ i j x g rest,
                 entry t i j = Some (x :: g :: rest) ->
                 ∃ covs,
                   Cu !! j = Some covs ∧
                   entry t' i j
                   = Some (x :: g :: covs
                           ++ (if exclude_covariate_interactions self then []
                               else (λ v, v * g)%Q <$> covs)
                           ++ drop (n_covariates self
                                    + n_interaction_covariates self) rest)).
  { intros c' Cu w1 Ht1 HC1 Hne HlenC HFC. unfold tail, subscript.
    run.
    destruct (set_terms_run 2 (n_covariates self + 2) (np_repeat ne Cu) t
                ne ni (n_terms self)) as [E1 S1]; [lia|exact Hshape| |].
    { apply shaped_replicate; [exact HlenC|].
      eapply Forall_impl; [exact HFC|]. intros row Hrow. simpl in *. lia. }
    rewrite E1. run.
    set (t3 := zip_with _ t (np_repeat ne Cu)) in *.
    assert (Hent3 : ∀ i j x g rest,
               entry t i j = Some (x :: g :: rest) ->
               ∃ covs, Cu !! j = Some covs ∧
                       length covs = n_covariates self ∧
                       entry t3 i j
                       = Some (x :: g :: covs
                               ++ drop (n_covariates self) rest)).
    { intros i j x g rest E.
      destruct (shaped_entry _ _ _ _ _ _ _ Hshape E) as (_ & Hi & Hj).
      destruct (lookup_lt_is_Some_2 Cu j) as [covs Hcovs]; [lia|].
      exists covs. split; [exact Hcovs|].
      split; [exact (Forall_lookup_1 _ _ _ _ HFC Hcovs)|].
      unfold t3. rewrite entry_zip_with, E. cbn [mbind option_bind].
      unfold np_repeat. rewrite entry_replicate by exact Hi.
      rewrite Hcovs. cbn [mbind option_bind].
      replace (n_covariates self + 2)%nat with (S (S (n_covariates self)))
        by lia.
      reflexivity. }
    destruct (exclude_covariate_interactions self) eqn:Hex.
    - cbn [negb when]. run.
      eexists _, _. split; [reflexivity|]. split; [reflexivity|].
      split; [reflexivity|]. split; [exact S1|].
      intros i j x g rest E.
      destruct (Hent3 i j x g rest E) as (covs & Hcovs & Hlen & E3).
      exists covs. split; [exact Hcovs|]. rewrite E3.
      unfold n_interaction_covariates. rewrite Hex.
      rewrite Nat.add_0_r. reflexivity.
    - cbn [negb when]. run.
      assert (Hni : n_interaction_covariates self = n_covariates self).
      { unfold n_interaction_covariates. now rewrite Hex. }
      destruct (set_terms_run (n_covariates self + 2) (n_terms self - 1)
                  (scale_terms (get_terms 2 (n_covariates self + 2) t3)
                               (get_term 1 t3))
                  t3 ne ni (n_terms self)) as [E2 S2]; [lia|exact S1| |].
      { unfold scale_terms, get_terms, get_term.
        eapply shaped_zip_with
          with (P := λ vs : vector, length vs = n_covariates self)
               (Q := λ _, True).
        2: { eapply shaped_fmap; [|exact S1].
             intros T HT. simpl in *.
             rewrite length_take, length_drop. lia. }
        2: { eapply shaped_fmap; [|exact S1]. intros; exact Logic.I. }
        intros a b Ha _. simpl in *.
        rewrite length_fmap. lia. }
      rewrite E2. run.
      eexists _, _. split; [reflexivity|].
      split; [simpl_world; apply insert_insert_eq|].
      split; [reflexivity|]. split; [exact S2|].
      intros i j x g rest E.
      destruct (Hent3 i j x g rest E) as (covs & Hcovs & Hlen & E3).
      exists covs. split; [exact Hcovs|].
      rewrite entry_zip_with, E3. cbn [mbind option_bind].
      unfold scale_terms, get_terms, get_term.
      rewrite entry_zip_with, !entry_fmap, E3.
      cbn [fmap option_fmap option_map mbind option_bind].
      destruct (shaped_entry _ _ _ _ _ _ _ Hshape E) as (HT & _ & _).
      simpl in HT.
      f_equal.
      replace (n_covariates self + 2)%nat with (S (S (n_covariates self)))
        by lia.
      replace (n_terms self - 1)%nat
        with (S (S (n_covariates self + n_covariates self))) by lia.
      cbn [take drop lookup list_lookup default].
      replace (S (S (n_covariates self)) - 2)%nat with (n_covariates self)
        by lia.
      rewrite !take_app_length' by (symmetry; exact Hlen).
      rewrite drop_0, take_app_length' by (symmetry; exact Hlen).
      rewrite drop_app_add' by (symmetry; exact Hlen).
      rewrite drop_drop, Hni. reflexivity. }
  destruct (resample_covariates self) eqn:Hr.
  - run.
    lazymatch goal with
    | |- context [tail (Some ?l) ?w1] =>
        destruct (Htail l (draws (draws standard_normal (n_covariates self))
                             ni (np_random w)).1 w1)
          as (t' & w' & E & Hheap & Hnext & St' & Hent)
    end.
    { solve_lookup. }
    { solve_lookup. }
    { simpl_world. lia. }
    { apply length_draws. }
    { pose proof (shaped_draws ni (n_covariates self) (np_random w))
        as [_ HF].
      eapply Forall_impl; [exact HF|]. intros row [Hrow _]. exact Hrow. }
    simpl_world.
    eexists t', _, (draws (draws standard_normal (n_covariates self))
                      ni (np_random w)).1, w'.
    split; [exact E|].
    split; [rewrite Hheap; apply lookup_insert_eq|].
    split; [lia|].
    split.
    { intros l Hl Hlm. rewrite Hheap.
      rewrite lookup_insert_ne by congruence.
      rewrite lookup_insert_ne by lia. reflexivity. }
    split; [exact St'|]. split; [apply length_draws|].
    split.
    { pose proof (shaped_draws ni (n_covariates self) (np_random w))
        as [_ HF].
      eapply Forall_impl; [exact HF|]. intros row [Hrow _]. exact Hrow. }
    split.
    { intros _. eexists. split; [reflexivity|]. split; [lia|].
      rewrite Hheap.
      rewrite lookup_insert_ne by lia. apply lookup_insert_eq. }
    split; [discriminate|]. exact Hent.
  - destruct (Hcov Hn eq_refl) as (-> & Hc & Hcm & HC & HlenC & HFC).
    run.
    destruct (Htail c C w Ht HC Hcm HlenC HFC)
      as (t' & w' & E & Hheap & Hnext & St' & Hent).
    eexists t', _, C, w'. split; [exact E|].
    split; [rewrite Hheap; apply lookup_insert_eq|].
    split; [lia|].
    split.
    { intros l Hl Hlm. rewrite Hheap.
      now rewrite lookup_insert_ne by congruence. }
    split; [exact St'|]. split; [exact HlenC|]. split; [exact HFC|].
    split.
    { intros _. eexists. split; [reflexivity|]. split; [lia|].
      rewrite Hheap.
      now rewrite lookup_insert_ne by congruence. }
    split; [split; reflexivity|]. exact Hent.
Qed.

End Terms.

Section Model.
Context `{NumpyRandom} `{Numerics}.

Lemma length_model_columns (self : main) :
  length (model_columns self) = n_terms self.
Proof.
  unfold model_columns, n_terms, n_interaction_covariates, n_covariates.
  destruct (exclude_covariate_interactions self);
    repeat (rewrite ?length_app, ?length_fmap, ?length_seq; cbn [length]);
    lia.
Qed.

Lemma construct_model_matrix_run (self : main) (geno_df : loc)
    (G : DataFrame) (ne ni : nat) (mask_loc : loc) (mask : list bool)
    (cov : option loc) (c : loc) (C : matrix) (w : world) :
  (geno_df < next_loc w)%nat -> heap w !! geno_df = Some (Frame G) ->
  (mask_loc < next_loc w)%nat ->
  heap w !! mask_loc = Some (BoolArray mask) ->
  length mask = length (columns G) -> n_selected mask = ni ->
  length (values G) = ne -> (0 < ne)%nat ->
  Forall (λ row : vector, length row = length (columns G)) (values G) ->
  ((0 < n_covariates self)%nat -> resample_covariates self = false ->
   cov = Some c ∧ (c < next_loc w)%nat ∧
   heap w !! c = Some (Array2 C) ∧
   length C = ni ∧
   Forall (λ row : vector, length row = n_covariates self) C) ->
  ∃ t noise covu Cu w',
    construct_model_matrix self geno_df ne ni mask_loc cov w
    = (Return (next_loc w, mask_select mask (columns G), covu, noise), w') ∧
    heap w' !! next_loc w = Some (Array3 t) ∧
    (next_loc w < next_loc w')%nat ∧
    (∀ l, (l < next_loc w)%nat -> heap w' !! l = heap w !! l) ∧
    shaped ne ni (λ T : vector, length T = n_terms self) t ∧
    length Cu = ni ∧
    ((0 < n_covariates self)%nat ->
     ∃ c', covu = Some c' ∧ (c' < next_loc w')%nat ∧
           heap w' !! c' = Some (Array2 Cu)) ∧
    (resample_covariates self = false ->
     covu = cov ∧ ((0 < n_covariates self)%nat -> Cu = C)) ∧
    ∀ i j g,
      entry (mask_select mask <$> values G) i j = Some g ->
      ∃ covs nz,
        Cu !! j = Some covs ∧
        length covs = n_covariates self ∧
        entry noise i j = Some nz ∧
        entry t i j
        = Some (1%Q :: g :: covs
                ++ (if exclude_covariate_interactions self then []
                    else (λ v, v * g)%Q <$> covs)
                ++ [nz]).
Proof.
  intros Hg HG Hml Hmask Hlen Hsel Hne Hpos HGrows Hcov.
  unfold construct_model_matrix.
  run.
  unfold iloc_columns. rewrite decide_True by exact Hlen.
  run. cbn [values]. simpl_world.
  set (genotypes := mask_select mask <$> values G).
  assert (Sg : shaped ne ni (λ _ : Q, True) genotypes).
  { apply shaped_mask_select; [exact Hne| |exact Hsel].
    eapply Forall_impl; [exact HGrows|]. intros row Hrow. simpl in *.
    congruence. }
  assert (S1 : shaped ne ni (λ T : vector, length T = n_terms self)
                 (fill_term 0 1 (np_empty3 ne ni (n_terms self)))).
  { unfold fill_term, np_empty3.
    eapply shaped_fmap with (P := λ T : vector, length T = n_terms self).
    - intros T HT. now rewrite length_insert.
    - apply shaped_tabulate. intros i j.
      now rewrite length_fmap, length_seq. }
  destruct (set_term_run 1 genotypes _ ne ni (n_terms self) S1 Sg)
    as [E2 S2].
  set (t2 := zip_with _ (fill_term _ _ _) genotypes) in *.
  rewrite E2. run. simpl_world.
  lazymatch goal with
  | |- context [(fill_covariates self ne ni ?m cov ≫= ?k) ?w1] =>
      destruct (fill_covariates_run self ne ni m cov c C t2 w1)
        as (t' & covu & Cu & w' & E3 & Ht' & Hnext & Hframe & S3
            & HlenCu & HFCu & Hcu & Hres & Hent3);
        [ simpl_world; lia
        | solve_lookup
        | exact S2
        | | rewrite (bind_Return _ k w1 _ _ E3) ]
  end.
  { intros Hn Hr. destruct (Hcov Hn Hr) as (-> & Hc & HC & HlenC & HFC).
    split; [reflexivity|]. simpl_world. split; [lia|]. split; [lia|].
    split; [|split; assumption].
    rewrite !lookup_insert_ne by lia. exact HC. }
  run.
  set (noise := (draws (draws standard_normal ni) ne (np_random w')).1).
  destruct (set_term_run (n_terms self - 1) noise t' ne ni (n_terms self)
              S3 (shaped_draws ne ni (np_random w'))) as [E5 S5].
  set (t5 := zip_with _ t' noise) in *.
  rewrite E5. run.
  destruct (lookup_lt_is_Some_2 t5 0) as [example Hex];
    [destruct S5 as [-> _]; exact Hpos|].
  rewrite Hex. run.
  unfold pd_DataFrame. rewrite decide_True.
  2: { destruct S5 as [_ HF5].
       destruct (Forall_lookup_1 _ _ _ _ HF5 Hex) as [Hrows Hcols].
       rewrite length_mask_select by exact Hlen.
       split; [congruence|].
       eapply Forall_impl; [exact Hcols|]. intros row Hrow.
       cbv beta in *. now rewrite length_model_columns. }
  run.
  eexists t5, noise, covu, Cu, _. split; [reflexivity|].
  split; [solve_lookup|]. split; [simpl_world; lia|].
  split.
  { intros l Hl. simpl_world. rewrite lookup_insert_ne by lia.
    destruct (decide (l = next_loc w)) as [->|Hlm]; [lia|].
    rewrite Hframe by (simpl_world; lia). simpl_world.
    now rewrite !lookup_insert_ne by lia. }
  split; [exact S5|]. split; [exact HlenCu|].
  split.
  { intros Hn. destruct (Hcu Hn) as (c' & -> & Hlt' & Hc').
    exists c'. split; [reflexivity|]. simpl_world. split; [lia|].
    destruct (decide (c' = next_loc w)) as [->|Hne'].
    - rewrite Ht' in Hc'. discriminate.
    - now rewrite lookup_insert_ne by congruence. }
  split; [exact Hres|].
  intros i j g Eg.
  destruct (shaped_entry _ _ _ _ _ _ _ Sg Eg) as (_ & Hi & Hj).
  destruct (shaped_is_Some _ _ _ _ i j S1 Hi Hj) as [T1 E1].
  destruct (shaped_entry _ _ _ _ _ _ _ S1 E1) as (HT1 & _ & _).
  simpl in HT1.
  assert (E1' : ∃ rest, entry (fill_term 0 1 (np_empty3 ne ni (n_terms self)))
                          i j = Some (1%Q :: rest)
                        ∧ S (length rest) = n_terms self).
  { unfold fill_term in *. rewrite entry_fmap in E1 |- *.
    destruct (entry (np_empty3 ne ni (n_terms self)) i j) as [T0|];
      [|discriminate].
    simpl in E1. injection E1 as <-. rewrite length_insert in HT1.
    destruct T0 as [|x0 rest]; [simpl in HT1; unfold n_terms in HT1; lia|].
    exists rest. split; [reflexivity|exact HT1]. }
  destruct E1' as (rest1 & E1' & Hrest1).
  destruct rest1 as [|x1 rest];
    [simpl in Hrest1; unfold n_terms in Hrest1; lia|].
  assert (E2' : entry t2 i j = Some (1%Q :: g :: rest)).
  { unfold t2. rewrite entry_zip_with, E1', Eg. reflexivity. }
  destruct (Hent3 i j _ _ _ E2') as (covs & Hcovs & E3').
  destruct (shaped_is_Some _ _ _ _ i j (shaped_draws ne ni (np_random w'))
              Hi Hj) as [nz Hnz].
  exists covs, nz. split; [exact Hcovs|].
  pose proof (Forall_lookup_1 _ _ _ _ HFCu Hcovs) as Hlc. simpl in Hlc.
  split; [exact Hlc|]. split; [exact Hnz|].
  unfold t5. rewrite entry_zip_with, E3'. fold noise in Hnz. rewrite Hnz.
  cbn [mbind option_bind]. f_equal.
  set (inter := if exclude_covariate_interactions self then []
                else (λ v, v * g)%Q <$> covs).
  assert (Hli : length inter = n_interaction_covariates self).
  { unfold inter, n_interaction_covariates.
    destruct (exclude_covariate_interactions self);
      [reflexivity | now rewrite length_fmap]. }
  assert (Hnt : n_terms self
               = (2 + n_covariates self + n_interaction_covariates self + 1)%nat)
    by reflexivity.
  cbn [length] in Hrest1.
  pose proof (length_drop rest
                (n_covariates self + n_interaction_covariates self)) as Hd.
  destruct (drop (n_covariates self + n_interaction_covariates self) rest)
    as [|z [|z' tl]]; cbn [length] in Hd; try lia.
  replace (n_terms self - 1)%nat
    with (S (S (length (covs ++ inter) + 0)))
    by (rewrite length_app; lia).
  transitivity (1%Q :: g :: <[(length (covs ++ inter) + 0)%nat:=nz]>
                               ((covs ++ inter) ++ [z])).
  { rewrite <- app_assoc. reflexivity. }
  rewrite insert_app_r, <- app_assoc. reflexivity.
Qed.



End Model.

Section Betas.
Context `{NumpyRandom} `{Numerics}.

Lemma set_column_run (k : nat) (v : vector) (b : matrix) :
  length b = length v ->
  set_column k v b = Some (zip_with (λ (row : vector) x, <[k:=x]> row) b v).
Proof. intros Hlen. now apply zip_exact_lengths. Qed.

(** The rows of a beta matrix under construction: of the length of the
    model, with the intercept and genotype betas in front. *)
Lemma set_columns_run (self : main) (ne : nat) (intercept gb : vector)
    (beta_m : loc) (col : nat -> nat) (cols : list nat) :
  (∀ i, 2 <= col i)%nat ->
  let Inv (b : matrix) :=
    length b = ne ∧
    ∀ i row, b !! i = Some row ->
             length row = n_terms self ∧
             row !! 0%nat = intercept !! i ∧ row !! 1%nat = gb !! i in
  ∀ b w,
    heap w !! beta_m = Some (Array2 b) -> Inv b ->
    ∃ b' w',
      for_ cols
        (λ i, v ← normal_vector ne;
              b ← load_array2 beta_m;
              b ← or_raise ValueError (set_column (col i) v b);
              store beta_m (Array2 b)) w
      = (Return (), w') ∧
      heap w' = <[beta_m := Array2 b']> (heap w) ∧
      next_loc w' = next_loc w ∧
      Inv b'.
Proof.
  intros Hcol Inv. induction cols as [|i cols IH]; intros b w Hb HInv.
  - exists b, w. split; [reflexivity|].
    split; [symmetry; apply insert_id, Hb|]. split; [reflexivity|exact HInv].
  - cbn [for_]. run.
    set (v := (draws standard_normal ne (np_random w)).1).
    assert (Hv : length v = ne) by apply length_draws.
    destruct HInv as [Hlen Hrows].
    rewrite set_column_run by congruence.
    run.
    lazymatch goal with
    | |- context [for_ cols ?body ?w1] =>
        destruct (IH (zip_with (λ (row : vector) x, <[col i:=x]> row) b v) w1)
          as (b' & w' & E & Hheap & Hnext & HInv')
    end.
    { solve_lookup. }
    { split; [rewrite length_zip_with; lia|].
      intros r row Hrow.
      apply lookup_zip_with_Some in Hrow as (row0 & x & -> & Hrow0 & Hx).
      destruct (Hrows r row0 Hrow0) as (Hl & H0' & H1').
      pose proof (Hcol i).
      rewrite length_insert, !list_lookup_insert_ne by lia.
      repeat split; assumption. }
    exists b', w'. split; [exact E|].
    split; [rewrite Hheap; simpl_world; apply insert_insert_eq|].
    split; [rewrite Hnext; reflexivity | exact HInv'].
Qed.

Lemma row_split (row : vector) (b0 b1 : Q) (nc nint : nat) :
  length row = (2 + nc + nint + 1)%nat ->
  row !! 0%nat = Some b0 -> row !! 1%nat = Some b1 ->
  ∃ bc bi,
    length bc = nc ∧ length bi = nint ∧
    <[(2 + nc + nint)%nat:=1%Q]> row = b0 :: b1 :: bc ++ bi ++ [1%Q].
Proof.
  intros Hlen H0' H1'.
  destruct row as [|x0 [|x1 rest]]; try discriminate.
  injection H0' as ->. injection H1' as ->. cbn [length] in Hlen.
  exists (take nc rest), (take nint (drop nc rest)).
  split; [rewrite length_take; lia|].
  split; [rewrite length_take, length_drop; lia|].
  pose proof (length_drop rest (nc + nint)) as Hd.
  destruct (drop (nc + nint) rest) as [|z [|z' tl]] eqn:Ed;
    cbn [length] in Hd; try lia.
  rewrite <- (take_drop nc rest) at 1.
  rewrite <- (take_drop nint (drop nc rest)) at 1.
  rewrite drop_drop, Ed.
  transitivity (b0 :: b1 :: <[(length (take nc rest
                                       ++ take nint (drop nc rest)) + 0)%nat
                              :=1%Q]>
                  ((take nc rest ++ take nint (drop nc rest)) ++ [z])).
  { rewrite <- app_assoc.
    replace (2 + nc + nint)%nat
      with (S (S (length (take nc rest ++ take nint (drop nc rest)) + 0))).
    - reflexivity.
    - rewrite length_app, !length_take, length_drop. lia. }
  rewrite insert_app_r, <- app_assoc. reflexivity.
Qed.

Lemma length_np_empty2_row (n k i : nat) (row : vector) :
  np_empty2 n k !! i = Some row -> length row = k.
Proof.
  unfold np_empty2. rewrite list_lookup_fmap.
  destruct (seq 0 n !! i) as [i'|]; [|discriminate].
  intros [= <-]. now rewrite length_fmap, length_seq.
Qed.

Lemma generate_model_betas_run (self : main) (ne : nat)
    (intercept : vector) (geno_beta_a : loc) (gb : vector) (w : world) :
  (geno_beta_a < next_loc w)%nat ->
  heap w !! geno_beta_a = Some (Array1 gb) ->
  length gb = ne -> length intercept = ne ->
  ∃ b w',
    generate_model_betas self ne intercept geno_beta_a w
    = (Return (next_loc w), w') ∧
    heap w' !! next_loc w = Some (Array2 b) ∧
    (next_loc w < next_loc w')%nat ∧
    (∀ l, (l < next_loc w)%nat -> heap w' !! l = heap w !! l) ∧
    length b = ne ∧
    ∀ i row,
      b !! i = Some row ->
      ∃ b0 b1 bc bi,
        intercept !! i = Some b0 ∧ gb !! i = Some b1 ∧
        length bc = n_covariates self ∧
        length bi = n_interaction_covariates self ∧
        row = b0 :: b1 :: bc ++ bi ++ [1%Q].
Proof.
  intros Hg Hgb Hlgb Hlint. unfold generate_model_betas.
  run. simpl_world.
  assert (Hle : length (np_empty2 ne (n_terms self)) = ne).
  { unfold np_empty2. now rewrite length_fmap, length_seq. }
  rewrite (set_column_run 0) by congruence.
  run. simpl_world.
  rewrite (set_column_run 1) by (rewrite length_zip_with; lia).
  run. simpl_world.
  set (b2 := zip_with (λ (row : vector) x, <[1%nat:=x]> row)
               (zip_with (λ (row : vector) x, <[0%nat:=x]> row)
                  (np_empty2 ne (n_terms self)) intercept) gb).
  assert (HInv2 : length b2 = ne ∧
                  ∀ i row, b2 !! i = Some row ->
                           length row = n_terms self ∧
                           row !! 0%nat = intercept !! i ∧
                           row !! 1%nat = gb !! i).
  { split; [unfold b2; rewrite !length_zip_with; lia|].
    intros i row Hrow. unfold b2 in Hrow.
    apply lookup_zip_with_Some in Hrow as (row1 & g & -> & Hrow1 & Hgi).
    apply lookup_zip_with_Some in Hrow1 as (row0 & x & -> & Hrow0 & Hxi).
    apply length_np_empty2_row in Hrow0.
    assert (2 < n_terms self)%nat by (unfold n_terms; lia).
    rewrite !length_insert.
    split; [exact Hrow0|].
    split.
    - rewrite list_lookup_insert_ne by lia. rewrite Hxi.
      apply list_lookup_insert_eq. lia.
    - rewrite Hgi. apply list_lookup_insert_eq.
      rewrite length_insert. lia. }
  lazymatch goal with
  | |- context [(for_ ?cols ?body ≫= ?k) ?w1] =>
      destruct (set_columns_run self ne intercept gb (next_loc w)
                  (λ i, i + 2)%nat cols ltac:(intros; cbv beta; lia) b2 w1)
        as (b3 & w3 & E3 & Hheap3 & Hnext3 & HInv3);
        [ solve_lookup | exact HInv2
        | rewrite (bind_Return _ k w1 _ _ E3) ]
  end.
  assert (Hb3 : heap w3 !! next_loc w = Some (Array2 b3))
    by (rewrite Hheap3; apply lookup_insert_eq).
  lazymatch goal with
  | |- context [(for_ ?cols ?body ≫= ?k) ?w1] =>
      destruct (set_columns_run self ne intercept gb (next_loc w)
                  (λ i, i + n_covariates self + 2)%nat cols
                  ltac:(intros; cbv beta; lia) b3 w1)
        as (b4 & w4 & E4 & Hheap4 & Hnext4 & HInv4);
        [ exact Hb3 | exact HInv3
        | rewrite (bind_Return _ k w1 _ _ E4) ]
  end.
  assert (Hb4 : heap w4 !! next_loc w = Some (Array2 b4))
    by (rewrite Hheap4; apply lookup_insert_eq).
  run.
  eexists _, _. split; [reflexivity|].
  split; [solve_lookup|].
  split; [simpl_world; rewrite Hnext4, Hnext3; simpl_world; lia|].
  split.
  { intros l Hl. simpl_world. rewrite lookup_insert_ne by lia.
    rewrite Hheap4, lookup_insert_ne by lia.
    rewrite Hheap3, lookup_insert_ne by lia. simpl_world.
    now rewrite !lookup_insert_ne by lia. }
  destruct HInv4 as [Hl4 Hrows4].
  split; [unfold fill_column; now rewrite length_fmap|].
  intros i row Hrow. unfold fill_column in Hrow.
  rewrite list_lookup_fmap in Hrow.
  destruct (b4 !! i) as [row4|] eqn:Hrow4; [|discriminate].
  injection Hrow as <-.
  destruct (Hrows4 i row4 Hrow4) as (Hlr & H0' & H1').
  assert (Hi : (i < ne)%nat).
  { rewrite <- Hl4. eapply lookup_lt_Some, Hrow4. }
  destruct (lookup_lt_is_Some_2 intercept i) as [b0 Hb0]; [lia|].
  destruct (lookup_lt_is_Some_2 gb i) as [b1 Hb1]; [lia|].
  rewrite Hb0 in H0'. rewrite Hb1 in H1'.
  destruct (row_split row4 b0 b1 (n_covariates self)
              (n_interaction_covariates self) Hlr H0' H1')
    as (bc & bi & Hbc & Hbi & Erow).
  exists b0, b1, bc, bi. repeat (split; [assumption|]).
  rewrite <- Erow. f_equal. unfold n_terms. lia.
Qed.


End Betas.

Section Expression.
Context `{NumpyRandom} `{Numerics}.

Lemma einsum_run (t : tensor) (b : matrix) (n m k : nat) :
  shaped n m (λ T : vector, length T = k) t ->
  length b = n ->
  (∀ i beta, b !! i = Some beta -> length beta = k) ->
  einsum t b
  = Some (zip_with (λ (row : matrix) (beta : vector),
                      (λ terms : vector, dot terms beta) <$> row) t b).
Proof.
  intros [Hn Ht] Hb Hrows. unfold einsum. apply zip_exact_total.
  apply Forall2_same_length_lookup_2; [lia|]. intros i row beta Hrow Hbeta.
  destruct (Forall_lookup_1 _ _ _ _ Ht Hrow) as [_ Hterms].
  apply mapM_Some, Forall2_fmap_r, Forall_Forall2_diag.
  eapply Forall_impl; [exact Hterms|]. intros terms Hlen. simpl in *.
  rewrite decide_True; [reflexivity|].
  rewrite (Hrows i beta Hbeta). exact Hlen.
Qed.

Lemma entry_einsum (t : tensor) (b : matrix) i j terms beta :
  entry t i j = Some terms -> b !! i = Some beta ->
  entry (zip_with (λ (row : matrix) (beta : vector),
                     (λ terms : vector, dot terms beta) <$> row) t b) i j
  = Some (dot terms beta).
Proof.
  unfold entry. intros Et Hb. rewrite lookup_zip_with, Hb.
  destruct (t !! i) as [row|]; [|discriminate]. simpl in *.
  rewrite list_lookup_fmap, Et. reflexivity.
Qed.

Lemma dot_cons (x y : Q) (a b : vector) :
  dot (x :: a) (y :: b) = (x * y + dot a b)%Q.
Proof. reflexivity. Qed.

Lemma dot_app (a b c d : vector) :
  length a = length c ->
  (dot (a ++ b) (c ++ d) == dot a c + dot b d)%Q.
Proof.
  revert c. induction a as [|x a IH]; intros [|y c] Hlen;
    try discriminate.
  - cbn [app]. unfold dot at 2. simpl. ring.
  - injection Hlen as Hlen. cbn [app]. rewrite !dot_cons, IH by exact Hlen.
    ring.
Qed.

Lemma dot_comm (a b : vector) : (dot a b == dot b a)%Q.
Proof.
  revert b. induction a as [|x a IH]; intros [|y b];
    try reflexivity.
  rewrite !dot_cons, IH. ring.
Qed.

(** The inner product of a row of the model matrix and a row of betas,
    written out. *)
Lemma dot_model (g nz b0 b1 : Q) (covs inter bc bi : vector) :
  length covs = length bc -> length inter = length bi ->
  (dot (1 :: g :: covs ++ inter ++ [nz]) (b0 :: b1 :: bc ++ bi ++ [1])
   == b0 + b1 * g + dot bc covs + dot bi inter + nz)%Q.
Proof.
  intros Hc Hi. rewrite !dot_cons, !dot_app by assumption.
  rewrite (dot_comm covs bc), (dot_comm inter bi).
  unfold dot at 3. simpl. ring.
Qed.

(** C4: on inputs of the shapes the run loads, one experiment's
    [simulate] returns, and the expression of eQTL [i] in the selected
    sample [j] is the inner product of row [(i, j)] of the model matrix
    and row [i] of the beta matrix: the row of the model is the
    intercept 1, the genotype, the covariates of the sample, their
    products with the genotype unless the interactions are excluded,
    and the noise; the row of betas ends in the coefficient 1 of the
    noise.  Written out, this is the linear model. *)
Theorem expression_is_linear_model (self : main) (geno_df : loc)
    (G : DataFrame) (ne ni : nat) (intercept : vector) (geno_beta_a : loc)
    (gb : vector) (mask_loc : loc) (mask : list bool) (cov : option loc)
    (c : loc) (C : matrix) (w : world) :
  (geno_df < next_loc w)%nat -> heap w !! geno_df = Some (Frame G) ->
  (mask_loc < next_loc w)%nat ->
  heap w !! mask_loc = Some (BoolArray mask) ->
  (geno_beta_a < next_loc w)%nat ->
  heap w !! geno_beta_a = Some (Array1 gb) ->
  length mask = length (columns G) -> n_selected mask = ni ->
  length (values G) = ne -> (0 < ne)%nat ->
  Forall (λ row : vector, length row = length (columns G)) (values G) ->
  length gb = ne -> length intercept = ne ->
  ((0 < n_covariates self)%nat -> resample_covariates self = false ->
   cov = Some c ∧ (c < next_loc w)%nat ∧
   heap w !! c = Some (Array2 C) ∧
   length C = ni ∧
   Forall (λ row : vector, length row = n_covariates self) C) ->
  ∃ sim w' t b Cu,
    simulate self geno_df ne ni intercept geno_beta_a mask_loc cov w
    = (Return sim, w') ∧
    heap w' !! model_m sim = Some (Array3 t) ∧
    heap w' !! beta_m sim = Some (Array2 b) ∧
    sample_names sim = mask_select mask (columns G) ∧
    ((0 < n_covariates self)%nat ->
     ∃ c', cov_m_used sim = Some c' ∧ heap w' !! c' = Some (Array2 Cu)) ∧
    ((0 < n_covariates self)%nat -> resample_covariates self = false ->
     Cu = C) ∧
    ∀ i j g,
      entry (mask_select mask <$> values G) i j = Some g ->
      ∃ b0 b1 bc bi covs nz,
        let inter := if exclude_covariate_interactions self then []
                     else (λ v, v * g)%Q <$> covs in
        intercept !! i = Some b0 ∧ gb !! i = Some b1 ∧
        Cu !! j = Some covs ∧
        entry (noise_m sim) i j = Some nz ∧
        length bc = length covs ∧ length bi = length inter ∧
        entry t i j = Some (1%Q :: g :: covs ++ inter ++ [nz]) ∧
        b !! i = Some (b0 :: b1 :: bc ++ bi ++ [1%Q]) ∧
        entry (expr_m sim) i j
        = Some (dot (1%Q :: g :: covs ++ inter ++ [nz])
                    (b0 :: b1 :: bc ++ bi ++ [1%Q])) ∧
        (dot (1 :: g :: covs ++ inter ++ [nz]) (b0 :: b1 :: bc ++ bi ++ [1])
         == b0 + b1 * g + dot bc covs + dot bi inter + nz)%Q.
Proof.
  intros Hg HG Hml Hmask Hgl Hgb Hlen Hsel Hne Hpos HGrows Hlgb Hlint Hcov.
  unfold simulate.
  destruct (construct_model_matrix_run self geno_df G ne ni mask_loc mask
              cov c C w Hg HG Hml Hmask Hlen Hsel Hne Hpos HGrows Hcov)
    as (t & noise & covu & Cu & w1 & E1 & Ht & Hnext1 & Hframe1 & St
        & HlenCu & Hcu & Hres & Hent).
  rewrite (bind_Return _ _ _ _ _ E1). cbn [fst snd].
  destruct (generate_model_betas_run self ne intercept geno_beta_a gb w1)
    as (b & w2 & E2 & Hb & Hnext2 & Hframe2 & Hlb & Hrows);
    [lia | rewrite Hframe1 by lia; exact Hgb | exact Hlgb | exact Hlint |].
  rewrite (bind_Return _ _ _ _ _ E2).
  assert (Ht2 : heap w2 !! next_loc w = Some (Array3 t))
    by (rewrite Hframe2 by lia; exact Ht).
  unfold calculate_expression. run.
  rewrite (einsum_run t b ne ni (n_terms self) St Hlb).
  2: { intros i beta Hbeta.
       destruct (Hrows i beta Hbeta)
         as (b0 & b1 & bc & bi & _ & _ & Hbc & Hbi & ->).
       cbn [length]. rewrite !length_app. cbn [length].
       unfold n_terms. lia. }
  run.
  eexists _, _, t, b, Cu. split; [reflexivity|]. cbn [model_m beta_m
    sample_names cov_m_used noise_m expr_m]. simpl_world.
  split; [exact Ht2|]. split; [exact Hb|]. split; [reflexivity|].
  split.
  { intros Hn. destruct (Hcu Hn) as (c' & -> & Hlt & Hc').
    exists c'. split; [reflexivity|].
    rewrite Hframe2 by exact Hlt. exact Hc'. }
  split.
  { intros Hn Hr. destruct (Hres Hr) as [_ HC]. exact (HC Hn). }
  intros i j g Eg.
  destruct (Hent i j g Eg) as (covs & nz & Hcovs & Hlc & Hnz & Et).
  destruct (shaped_entry _ _ _ _ _ _ _ St Et) as (_ & Hi & _).
  destruct (lookup_lt_is_Some_2 b i) as [beta Hbeta]; [lia|].
  destruct (Hrows i beta Hbeta)
    as (b0 & b1 & bc & bi & Hb0 & Hb1 & Hbc & Hbi & ->).
  exists b0, b1, bc, bi, covs, nz. cbv zeta.
  assert (Hli : length bi
                = length (if exclude_covariate_interactions self then []
                          else (λ v, v * g)%Q <$> covs)).
  { rewrite Hbi. unfold n_interaction_covariates.
    destruct (exclude_covariate_interactions self);
      [reflexivity | now rewrite length_fmap]. }
  repeat (split; [first [assumption | congruence]|]).
  split; [exact (entry_einsum _ _ _ _ _ _ Et Hbeta)|].
  apply dot_model; congruence.
Qed.

End Expression.

Lemma expression_is_linear_model_witness :
  let w := allocated (Array2 [[1; 2]; [3; 4]]%Q)
             (allocated (Array1 [1 # 2; 5 # 4]%Q)
                (allocated (BoolArray [true; true; false])
                   (allocated (Frame genotype_example)
                      (empty_world counter_random 0%nat)))) in
  ∃ sim w' x,
    simulate (H:=counter_random) (H0:=reference_numerics) main_example
      0%nat 2%nat 2%nat [1; 1]%Q 2%nat 1%nat (Some 3%nat) w
    = (Return sim, w') ∧
    sample_names sim = ["ind1"; "ind2"] ∧
    entry (expr_m sim) 0%nat 0%nat = Some x.
Proof.
  intros w.
  destruct (expression_is_linear_model (H:=counter_random)
              (H0:=reference_numerics) main_example 0%nat genotype_example
              2%nat 2%nat [1; 1]%Q 2%nat [1 # 2; 5 # 4]%Q 1%nat
              [true; true; false] (Some 3%nat) 3%nat [[1; 2]; [3; 4]]%Q w)
    as (sim & w' & t & b & Cu & E & _ & _ & Hnames & _ & _ & Hentry).
  - simpl. lia.
  - reflexivity.
  - simpl. lia.
  - reflexivity.
  - simpl. lia.
  - reflexivity.
  - reflexivity.
  - reflexivity.
  - reflexivity.
  - lia.
  - repeat constructor.
  - reflexivity.
  - reflexivity.
  - intros _ _. split; [reflexivity|]. split; [simpl; lia|].
    split; [reflexivity|]. split; [reflexivity|]. repeat constructor.
  - destruct (Hentry 0%nat 0%nat 0%Q eq_refl)
      as (b0 & b1 & bc & bi & covs & nz & Hx).
    cbv zeta in Hx.
    exists sim, w', (dot (1%Q :: 0%Q :: covs
                          ++ (if exclude_covariate_interactions main_example
                              then [] else (λ v, v * 0)%Q <$> covs)
                          ++ [nz])
                         (b0 :: b1 :: bc ++ bi ++ [1%Q])).
    split; [exact E|]. split; [exact Hnames|]. apply Hx.
Defined.

Ltac quiet_events :=
  simpl;
  repeat (apply Forall_cons; split; [simpl; try tauto; discriminate|]);
  apply Forall_nil_2.

Section Start.
Context `{NumpyRandom} `{Numerics}.

(** C1, amended: a run whose eQTL table does not list the SNPs of the
    genotype matrix, in its order, logs the error and exits at once,
    with status 0: nothing was drawn from the generator and nothing
    that belongs to an experiment was logged or written. *)
Theorem mismatch_exits (self : main) (w : world) (rows : list eqtl_row) :
  eqtl self = Some rows ->
  SNPName <$> read_rows (n_eqtls self) rows
  ≠ index (read_frame (n_eqtls self) (genotype self)) ->
  ∃ events w',
    start self w = (Exited 0, w') ∧
    log w' = log w ++ events
             ++ [Error {| template :=
                            "\tError, eQTL file and genotype file don't match.";
                          args := [] |}] ∧
    Forall (λ e, ¬ is_experiment_event e) events ∧
    np_random w' = np_random w.
Proof.
  intros Hrows Hne. unfold start.
  run. rewrite Hrows. run.
  rewrite bool_decide_true by exact Hne. unfold when. run.
  eexists _, _. split; [reflexivity|].
  split; [solve_log|]. split; [|reflexivity].
  simpl. repeat (apply Forall_cons; split; [simpl; try tauto; discriminate|]).
  apply Forall_nil_2.
Qed.

(** *** The selection of individuals *)

Lemma select_individuals_too_many (n : nat) (k : Z) (w : world) :
  Z.of_nat n < k ->
  select_individuals n k w
  = (Exited 0,
     logged (Error {| template :=
                        "\tError, more samples requested than available.";
                      args := [] |})
       (allocated (BoolArray (replicate n true))
          (logged (Info {| template := "Selecting individuals";
                           args := [] |}) w))).
Proof.
  intros Hk. unfold select_individuals. run.
  rewrite bool_decide_true by lia. unfold when.
  destruct (Z.ltb_spec (Z.of_nat n) k); [|lia].
  run. reflexivity.
Qed.

Lemma select_individuals_fewer (n : nat) (k : Z) (w : world) :
  0 <= k < Z.of_nat n ->
  let drawn :=
    choice_without_replacement n (Z.to_nat (Z.of_nat n - k)) (np_random w) in
  select_individuals n k w
  = (Return (next_loc w),
     stored (next_loc w)
       (BoolArray (clear_mask drawn.1 (replicate n true)))
       (reseeded drawn.2
          (allocated (BoolArray (replicate n true))
             (logged (Info {| template := "Selecting individuals";
                              args := [] |}) w)))).
Proof.
  intros Hk drawn. unfold select_individuals. run.
  rewrite bool_decide_true by lia. unfold when.
  destruct (Z.ltb_spec (Z.of_nat n) k); [lia|].
  run. unfold draw_individuals, np_random_choice.
  destruct (Z.ltb_spec (Z.of_nat n - k) 0); [lia|].
  destruct (Z.ltb_spec (Z.of_nat n) (Z.of_nat n - k)); [lia|].
  cbn [orb]. run. reflexivity.
Qed.

Lemma select_individuals_all (n : nat) (w : world) :
  select_individuals n (Z.of_nat n) w
  = (Return (next_loc w),
     allocated (BoolArray (replicate n true))
       (logged (Info {| template := "Selecting individuals";
                        args := [] |}) w)).
Proof.
  unfold select_individuals. run.
  rewrite bool_decide_false by (intros E; apply E; reflexivity).
  unfold when. run. reflexivity.
Qed.


Lemma filter_app_silent (P : event -> Prop) `{∀ e, Decision (P e)}
    (l events : list event) :
  Forall (λ e, ¬ P e) events -> filter P (l ++ events) = filter P l.
Proof.
  intros Hall. rewrite filter_app.
  induction Hall as [|e events He _ IH]; [apply app_nil_r|].
  rewrite filter_cons_False by exact He. exact IH.
Qed.

(** What [start] does up to the check of its inputs: it fails to read
    the eQTL table, or it exits on a mismatch, or it goes on with the
    genotype frame as the one new object.  Nothing is drawn and no
    event of an experiment is logged that far. *)
Lemma start_inputs (self : main) (w : world) :
  ∃ w1 events,
    log w1 = log w ++ events ∧
    Forall (λ e, ¬ is_experiment_event e) events ∧
    np_random w1 = np_random w ∧
    (start self w = (Raised ValueError, w1) ∨
     start self w = (Exited 0, w1) ∨
     ∃ rows,
       eqtl self = Some rows ∧
       heap w1 = <[next_loc w :=
                    Frame (read_frame (n_eqtls self) (genotype self))]>
                   (heap w) ∧
       next_loc w1 = S (next_loc w) ∧
       start self w
       = generate self (next_loc w) (read_rows (n_eqtls self) rows)
           (length (index (read_frame (n_eqtls self) (genotype self))))
           (length (columns (genotype self))) w1).
Proof.
  unfold start. run.
  destruct (eqtl self) as [rows|].
  - run.
    destruct (decide (SNPName <$> read_rows (n_eqtls self) rows
                      = index (read_frame (n_eqtls self) (genotype self))))
      as [E|E].
    + rewrite bool_decide_false by (intros E'; exact (E' E)).
      unfold when. run.
      eexists _, _. split; [|split; [|split]].
      4: { right. right. exists rows. repeat split; reflexivity. }
      * solve_log.
      * quiet_events.
      * reflexivity.
    + rewrite bool_decide_true by exact E. unfold when. run.
      eexists _, _. split; [|split; [|split]].
      4: { right. left. reflexivity. }
      * solve_log.
      * quiet_events.
      * reflexivity.
  - run.
    eexists _, _. split; [|split; [|split]].
    4: { left. reflexivity. }
    + solve_log.
    + quiet_events.
    + reflexivity.
Qed.


(** C6, as the code has it: without covariates ([-kc 0 -hc 0]) no
    experiment completes and no file is written, so no starting
    vector, data-derived or random, is produced. *)
Theorem no_covariates_no_starting_vectors (self : main) (w : world) :
  n_known_covariates self = 0%nat ->
  n_hidden_covariates self = 0%nat ->
  0 < n_experiments self ->
  (∀ r, (start self w).1 ≠ Return r) ∧
  filter is_saved (log (start self w).2) = filter is_saved (log w).
Proof.
  intros Hk Hh Hn.
  pose (I := silent_invariant is_saved
               (λ _ _ _ F, F) (λ _ F, F) (λ _ F, F) w).
  assert (K : keeps (inv I) (start self) (λ _, n_experiments self <= 0)).
  { apply keeps_start. intros.
    apply keeps_generate_no_covariates; [intros a F; exact F|].
    unfold n_covariates. lia. }
  destruct (K w eq_refl) as [HJ HQ].
  split; [|exact HJ].
  intros r E. specialize (HQ r E). simpl in HQ. lia.
Qed.

(** C7: after any number of experiments, whatever their outcome, the
    genotype frame loaded before the loop is what it was, and so is
    the covariate matrix generated before the loop; when
    [resample_covariates] is unset, the variable [cov_m] still refers
    to that matrix. *)
Theorem inputs_kept_across_experiments (self : main) (geno_df : loc)
    (G : DataFrame) (n : nat) (k : Z) (ne : nat)
    (eqtl_names gene_names : list string) (intercept : vector)
    (geno_beta_a : loc) (ids : list nat) (vars : locals) (w : world) :
  (geno_df < next_loc w)%nat ->
  heap w !! geno_df = Some (Frame G) ->
  let run :=
    experiments (experiment self geno_df n k ne eqtl_names gene_names
                            intercept geno_beta_a) ids vars w in
  heap run.2 !! geno_df = Some (Frame G) ∧
  ∀ c C, cov_m vars = Some c -> (c < next_loc w)%nat ->
         heap w !! c = Some (Array2 C) ->
         heap run.2 !! c = Some (Array2 C) ∧
         (resample_covariates self = false ->
          ∀ vars', run.1 = Return vars' -> cov_m vars' = Some c).
Proof.
  intros Hg HG run.
  pose (I := frame_invariant (next_loc w) w).
  assert (K : keeps (inv I)
                (experiments (experiment self geno_df n k ne eqtl_names
                                gene_names intercept geno_beta_a) ids vars)
                (λ vars', resample_covariates self = false ->
                          cov_m vars' = cov_m vars)).
  { apply keeps_experiments; intros; exact Logic.I. }
  destruct (K w) as [[_ Hframe] HQ].
  { split; [reflexivity|]. intros; reflexivity. }
  split.
  - etrans; [apply Hframe, Hg | exact HG].
  - intros c C Hc Hlt HC. split.
    + etrans; [apply Hframe, Hlt | exact HC].
    + intros Hr vars' E. etrans; [apply (HQ vars' E Hr) | exact Hc].
Qed.

Lemma n_selected_replicate (n : nat) : n_selected (replicate n true) = n.
Proof.
  unfold n_selected. induction n as [|n IH]; [reflexivity|].
  cbn [replicate]. rewrite filter_cons_True by reflexivity.
  cbn [length]. now rewrite IH.
Qed.

(** C10: a request for more individuals than the genotype matrix has
    logs the error and exits in the selection, so that [start] never
    returns and nothing of an experiment is logged or written; a
    request for fewer leaves a mask with exactly that many entries
    set, which selects that many of the names, in their order; and
    without a request every individual is kept. *)
Theorem individuals_selected (self : main) (w w1 : world) :
  let names := columns (genotype self) in
  let n := length names in
  let k := requested_individuals self n in
  (Z.of_nat n < k ->
   select_individuals n k w1
   = (Exited 0,
      logged (Error {| template :=
                         "\tError, more samples requested than available.";
                       args := [] |})
        (allocated (BoolArray (replicate n true))
           (logged (Info {| template := "Selecting individuals";
                            args := [] |}) w1))) ∧
   (∀ r, (start self w).1 ≠ Return r) ∧
   experiment_log (log (start self w).2) = experiment_log (log w)) ∧
  (0 <= k < Z.of_nat n ->
   ∃ mask w2,
     select_individuals n k w1 = (Return (next_loc w1), w2) ∧
     heap w2 !! next_loc w1 = Some (BoolArray mask) ∧
     length mask = n ∧
     n_selected mask = Z.to_nat k ∧
     length (mask_select mask names) = Z.to_nat k ∧
     sublist (mask_select mask names) names) ∧
  (n_individuals self = None ->
   ∃ w2,
     select_individuals n k w1 = (Return (next_loc w1), w2) ∧
     heap w2 !! next_loc w1 = Some (BoolArray (replicate n true)) ∧
     mask_select (replicate n true) names = names).
Proof.
  intros names n k. split; [|split].
  - intros Hk. split; [apply select_individuals_too_many, Hk|].
    pose (I := silent_invariant is_experiment_event
                 (λ _ _ Ht, Ht) (λ _ F, F) (λ _ F, F) w).
    destruct (start_inputs self w)
      as (w' & events & Hlog & Hq & _ & [E | [E | (rows & _ & _ & _ & E)]]);
      rewrite E.
    + split; [discriminate|]. unfold experiment_log. simpl. rewrite Hlog.
      apply filter_app_silent, Hq.
    + split; [discriminate|]. unfold experiment_log. simpl. rewrite Hlog.
      apply filter_app_silent, Hq.
    + assert (Hw' : inv I w').
      { simpl. unfold silent. rewrite Hlog. apply filter_app_silent, Hq. }
      destruct (keeps_generate_too_many I self (next_loc w)
                  (read_rows (n_eqtls self) rows)
                  (length (index (read_frame (n_eqtls self) (genotype self))))
                  n Hk w' Hw') as [HJ HQ].
      split; [intros r Er; exact (HQ r Er) | exact HJ].
  - intros Hk.
    pose proof (select_individuals_fewer n k w1 Hk) as E. simpl in E.
    destruct (choice_distinct n (Z.to_nat (Z.of_nat n - k)) (np_random w1))
      as (Hnd & Hlen & Hlt); [lia|].
    eexists _, _. split; [exact E|].
    assert (Hm : length (clear_mask
                (choice_without_replacement n (Z.to_nat (Z.of_nat n - k))
                   (np_random w1)).1 (replicate n true)) = n).
    { rewrite length_clear_mask. apply length_replicate. }
    assert (Hs : n_selected (clear_mask
                (choice_without_replacement n (Z.to_nat (Z.of_nat n - k))
                   (np_random w1)).1 (replicate n true)) = Z.to_nat k).
    { pose proof (n_selected_clear_mask _ (replicate n true) Hnd) as Hc.
      rewrite n_selected_replicate, Hlen in Hc.
      assert (n_selected (clear_mask
                (choice_without_replacement n (Z.to_nat (Z.of_nat n - k))
                   (np_random w1)).1 (replicate n true))
              + Z.to_nat (Z.of_nat n - k) = n)%nat as Hc'.
      { apply Hc. eapply Forall_impl; [exact Hlt|].
        intros i Hi. simpl in Hi. now apply lookup_replicate_2. }
      lia. }
    split; [simpl; now rewrite lookup_insert_eq|].
    split; [exact Hm|]. split; [exact Hs|].
    split; [|apply mask_select_sublist].
    rewrite length_mask_select by (rewrite Hm; reflexivity). exact Hs.
  - intros Hnone.
    assert (Hk : k = Z.of_nat n).
    { unfold k, requested_individuals. now rewrite Hnone. }
    rewrite Hk. eexists. split; [apply select_individuals_all|].
    split; [simpl; now rewrite lookup_insert_eq|].
    apply mask_select_all.
Qed.

(** C8: without the flag the betas are [n] draws from N(0,1), in an
    array that is the one new object, and the run neither depends on
    the eQTL table nor loads the alleles; with the flag, entry [i] is
    the float before the first space of [Meta-Beta (SE)], with the
    sign kept when [AlleleAssessed] is the allele before the slash of
    the alleles table and flipped otherwise. *)
Theorem genotype_betas (self : main) (eqtl_df : list eqtl_row) (n : nat)
    (w : world) :
  (use_real_genotype_beta self = false ->
   generate_genotype_beta self eqtl_df n w
   = (Return (next_loc w),
      allocated (Array1 (draws standard_normal n (np_random w)).1)
        (reseeded (draws standard_normal n (np_random w)).2 w))) ∧
  (use_real_genotype_beta self = true ->
   ∀ alleles_df betas,
     alleles self = Some alleles_df ->
     length (take n alleles_df) = length eqtl_df ->
     mapM (λ r, parse_float (before " " (Meta_Beta_SE r))) eqtl_df
     = Some betas ->
     ∃ l w' a,
       generate_genotype_beta self eqtl_df n w = (Return l, w') ∧
       heap w' !! l = Some (Array1 a) ∧
       length a = length eqtl_df ∧
       ∀ i r al,
         eqtl_df !! i = Some r -> alleles_df !! i = Some al ->
         ∃ beta,
           parse_float (before " " (Meta_Beta_SE r)) = Some beta ∧
           a !! i = Some (beta
                          * (if bool_decide (AlleleAssessed r
                                             = before "/" (Alleles al))
                             then 1 else -1))%Q).
Proof.
  split.
  - intros Hflag. unfold generate_genotype_beta. rewrite Hflag. run.
    reflexivity.
  - intros Hflag alleles_df betas Ha Hlen Hb.
    unfold generate_genotype_beta. rewrite Hflag, Ha. run.
    cbn [read_rows].
    rewrite (mapM_fmap_total _ _ (λ r, before "/" (Alleles r)))
      by reflexivity.
    run.
    rewrite (zip_exact_lengths _ pair)
      by (first [reflexivity | now rewrite !length_fmap]).
    run. rewrite Hb. run.
    pose proof (length_mapM _ _ _ Hb) as Hbl.
    rewrite (zip_exact_lengths _ Qmult)
      by (first [reflexivity
                | now rewrite length_fmap, length_zip_with, !length_fmap, Hlen;
                  lia]).
    run.
    eexists _, _, _. split; [reflexivity|].
    split; [solve_lookup|]. split.
    { rewrite length_zip_with, length_fmap, length_zip_with, !length_fmap.
      lia. }
    intros i r al Hr Hal.
    apply mapM_Some in Hb.
    destruct (Forall2_lookup_l _ _ _ _ _ Hb Hr) as (beta & Hbeta & Hparse).
    exists beta. split; [exact Hparse|].
    assert (Hi : (i < length (take n alleles_df))%nat).
    { rewrite Hlen. eapply lookup_lt_Some, Hr. }
    rewrite length_take in Hi.
    rewrite lookup_zip_with, Hbeta. cbn [mbind option_bind].
    rewrite list_lookup_fmap, lookup_zip_with, !list_lookup_fmap, Hr.
    rewrite lookup_take_lt by lia. rewrite Hal. reflexivity.
Qed.


End Start.

Lemma genotype_betas_witness :
  ∃ l w' a,
    generate_genotype_beta (H:=counter_random) (H0:=reference_numerics)
      main_example eqtl_example 2 (empty_world counter_random 0%nat)
    = (Return l, w') ∧
    heap w' !! l = Some (Array1 a) ∧
    a !! 0%nat = Some ((1 # 2) * 1)%Q ∧
    a !! 1%nat = Some ((-5 # 4) * -1)%Q.
Proof.
  destruct (genotype_betas (H:=counter_random) (H0:=reference_numerics)
              main_example eqtl_example 2 (empty_world counter_random 0%nat))
    as [_ Hset].
  destruct (Hset eq_refl alleles_example [1 # 2; -5 # 4]%Q eq_refl eq_refl
              ltac:(vm_compute; reflexivity))
    as (l & w' & a & E & Hh & _ & Hi).
  exists l, w', a. split; [exact E|]. split; [exact Hh|]. split.
  - destruct (Hi 0%nat _ _ eq_refl eq_refl) as (beta & Hp & Ha).
    vm_compute in Hp. injection Hp as <-. exact Ha.
  - destruct (Hi 1%nat _ _ eq_refl eq_refl) as (beta & Hp & Ha).
    vm_compute in Hp. injection Hp as <-. exact Ha.
Defined.


Lemma no_covariates_no_starting_vectors_witness :
  let run := start (H:=counter_random) (H0:=reference_numerics)
                   main_no_covariates (empty_world counter_random 0%nat) in
  (∀ r, run.1 ≠ Return r) ∧ filter is_saved (log run.2) = [].
Proof.
  apply (no_covariates_no_starting_vectors (H:=counter_random)
           (H0:=reference_numerics) main_no_covariates
           (empty_world counter_random 0%nat));
    [reflexivity | reflexivity | simpl; lia].
Defined.

(** C6 fails on the documented invocation without covariates: the run
    draws the random starting vectors and then raises the [TypeError]
    of [cov_m[:, ...]] on [None], with no file written. *)
Lemma no_covariates_run_raises :
  let run := start (H:=counter_random) (H0:=reference_numerics)
                   main_no_covariates (empty_world counter_random 0%nat) in
  n_covariates main_no_covariates = 0%nat ∧
  run.1 = Raised TypeError ∧
  last (log run.2)
  = Some (Info {| template := "\t Generating random starting vectors";
                  args := [] |}) ∧
  filter is_saved (log run.2) = [].
Proof. vm_compute. repeat split. Qed.

Lemma inputs_kept_across_experiments_witness :
  let w := allocated (Array2 [[1; 2]; [3; 4]]%Q)
             (allocated (Array1 [1 # 2; 5 # 4]%Q)
                (allocated (BoolArray [true; true; false])
                   (allocated (Frame genotype_example)
                      (empty_world counter_random 0%nat)))) in
  let run :=
    experiments (H:=counter_random)
      (experiment (H0:=reference_numerics) main_example 0%nat 3%nat 2 2%nat
                  ["gene1_snp1"; "gene2_snp2"] ["gene1"; "gene2"]
                  [1; 1]%Q 2%nat)
      [1%nat; 2%nat] {| individuals_mask := 1%nat; cov_m := Some 3%nat |} w in
  run.1 = Return {| individuals_mask := 1%nat; cov_m := Some 3%nat |} ∧
  filter is_saved (log run.2) ≠ [] ∧
  heap run.2 !! 0%nat = Some (Frame genotype_example) ∧
  heap run.2 !! 3%nat = Some (Array2 [[1; 2]; [3; 4]]%Q) ∧
  ∀ vars', run.1 = Return vars' -> cov_m vars' = Some 3%nat.
Proof.
  intros w run.
  split; [vm_compute; reflexivity|].
  split; [vm_compute; discriminate|].
  destruct (inputs_kept_across_experiments (H:=counter_random)
              (H0:=reference_numerics) main_example 0%nat genotype_example
              3%nat 2 2%nat ["gene1_snp1"; "gene2_snp2"] ["gene1"; "gene2"]
              [1; 1]%Q 2%nat [1%nat; 2%nat]
              {| individuals_mask := 1%nat; cov_m := Some 3%nat |} w)
    as [Hg Hc].
  - simpl. lia.
  - reflexivity.
  - split; [exact Hg|].
    destruct (Hc 3%nat [[1; 2]; [3; 4]]%Q) as [Hc' Hv];
      [reflexivity | simpl; lia | reflexivity |].
    split; [exact Hc'|]. exact (Hv eq_refl).
Defined.

Lemma individuals_selected_witness :
  (∀ r, (start (H:=counter_random) (H0:=reference_numerics) main_too_many
               (empty_world counter_random 0%nat)).1 ≠ Return r) ∧
  ∃ mask w2,
    select_individuals (H:=counter_random) 3 2
                       (empty_world counter_random 0%nat)
    = (Return 0%nat, w2) ∧
    heap w2 !! 0%nat = Some (BoolArray mask) ∧ n_selected mask = 2%nat.
Proof.
  split.
  - destruct (individuals_selected (H:=counter_random)
                (H0:=reference_numerics) main_too_many
                (empty_world counter_random 0%nat)
                (empty_world counter_random 0%nat)) as [Hmany _].
    destruct Hmany as (_ & Hr & _); [vm_compute; reflexivity | exact Hr].
  - destruct (individuals_selected (H:=counter_random)
                (H0:=reference_numerics) main_example
                (empty_world counter_random 0%nat)
                (empty_world counter_random 0%nat)) as (_ & Hfewer & _).
    destruct Hfewer as (mask & w2 & E & Hh & _ & Hs & _);
      [vm_compute; split; [discriminate | reflexivity]|].
    exists mask, w2. repeat split; assumption.
Defined.


Lemma mismatch_exits_witness :
  (start (H:=counter_random) (H0:=reference_numerics) main_mismatch
         (empty_world counter_random 0%nat)).1
  = Exited 0.
Proof.
  destruct (mismatch_exits (H:=counter_random) (H0:=reference_numerics)
              main_mismatch (empty_world counter_random 0%nat) _
              eq_refl)
    as (events & w' & -> & _).
  - vm_compute. discriminate.
  - reflexivity.
Defined.

(** C1, as stated, fails: on a table that names [snp9] where the
    genotype matrix has [snp2], the run ends with exit status 0. *)
Lemma mismatch_exit_status_zero :
  let run := start (H:=counter_random) (H0:=reference_numerics)
                   main_mismatch (empty_world counter_random 0%nat) in
  (SNPName <$> default [] (eqtl main_mismatch)
   ≠ index (genotype main_mismatch)) ∧
  run.1 = Exited 0 ∧
  ¬ (∃ status, run.1 = Exited status ∧ status ≠ 0).
Proof.
  split; [vm_compute; discriminate|].
  split; [vm_compute; reflexivity|].
  intros (status & E & Hs). vm_compute in E. congruence.
Qed.

(** *** The constructor, the selection and the loop *)



Section Reads.
Context `{NumpyRandom} `{Numerics}.














End Reads.




Section More.
Context `{NumpyRandom} `{Numerics}.





(** *** Correlations *)



(** *** Starting vectors *)



End More.

(** *** The files of a run *)

Section Writes.
Context `{NumpyRandom} `{Numerics}.







End Writes.


Section Experiment.
Context `{NumpyRandom} `{Numerics}.








End Experiment.









End SimulateExpressionFacts.
